(** * The pull-request tree provider of [src/view/prsTreeDataProvider.ts]

    A shallow embedding of the class [PullRequestsTreeDataProvider]: its
    fields, the objects it allocates and the calls it makes on its
    collaborators are an explicit state that every method threads through a
    small state-and-exception monad.  A call runs to completion: the places
    where the source awaits a collaborator are not interleaving points of
    the model, and what the collaborator answers is read off the [Host]
    record.  The properties of the provider are the theorems of the last
    part. *)

From stdpp Require Import base option list gmap strings.
From Stdlib Require Import Lia.


(** ** Data model *)

Module Model.

(** [ReposManagerState] of [github/folderRepositoryManager]. *)
Inductive ReposManagerState := Initializing | NeedsAuthentication | RepositoriesLoaded.

(** [AuthProvider] of [common/authentication]. *)
Inductive AuthProvider := github | githubEnterprise.

(** [PRType] of [github/interface]. *)
Inductive PRType := Query | All | LocalPullRequest.

(** The members of [PRCategoryActionType] that the provider constructs. *)
Inductive PRCategoryActionType :=
  Empty | LoginEnterprise | NoRemotes | NoMatchingRemotes | ConfigureRemotes.

Inductive CheckboxState := Unchecked | Checked.

#[global] Instance ReposManagerState_eq_dec : EqDecision ReposManagerState.
Proof. solve_decision. Defined.
#[global] Instance AuthProvider_eq_dec : EqDecision AuthProvider.
Proof. solve_decision. Defined.
#[global] Instance PRType_eq_dec : EqDecision PRType.
Proof. solve_decision. Defined.
#[global] Instance PRCategoryActionType_eq_dec : EqDecision PRCategoryActionType.
Proof. solve_decision. Defined.
#[global] Instance CheckboxState_eq_dec : EqDecision CheckboxState.
Proof. solve_decision. Defined.

(** A git remote as far as the provider looks at it: its name and the
    authentication provider its host belongs to. *)
Record Remote := { remoteName : string; authProvider : AuthProvider }.

(** One [FolderRepositoryManager].  The three remote lists are the three
    accessors the provider and [findDotComAndEnterpriseRemotes] read:
    [getGitHubRemotes()], [computeAllGitHubRemotes()] and
    [repository.state.remotes]. *)
Record FolderRepositoryManager := {
  rootUri : string;
  getGitHubRemotes : list Remote;
  computeAllGitHubRemotes : list Remote;
  repository_state_remotes : list string;
}.

(** [CredentialStore] of [github/credentials], as far as it is asked. *)
Record CredentialStore := { isAuthenticated : AuthProvider → bool }.

Record RepositoriesManager := {
  state : ReposManagerState;
  folderManagers : list FolderRepositoryManager;
  credentialStore : CredentialStore;
}.

Definition PullRequestModel := nat.
Definition ReviewModel := nat.

(** The variants of [TreeNode] the provider distinguishes.  A category node
    carries its [type] and its [id]. *)
Inductive NodeKind :=
  | WorkspaceFolderNode (uri : string)
  | CategoryTreeNode (type : PRType) (id : string)
  | PRCategoryActionNode (type : PRCategoryActionType)
  | InMemFileChangeNode
  | DataNode.

#[global] Instance NodeKind_eq_dec : EqDecision NodeKind.
Proof. solve_decision. Defined.

(** A node is an object: [ref] is its identity, fresh at every [new]. *)
Record TreeNode := { ref : nat; kind : NodeKind }.

#[global] Instance TreeNode_eq_dec : EqDecision TreeNode.
Proof. solve_decision. Defined.

(** The keys of [common/settingKeys] under [PR_SETTINGS_NAMESPACE]. *)
Inductive Setting := FILE_LIST_LAYOUT | QUERIES | REMOTES.

#[global] Instance Setting_eq_dec : EqDecision Setting.
Proof. solve_decision. Defined.

(** What [_disposables] holds, in the order the constructor and
    [initialize] push it. *)
Inductive Disposable :=
  | PRStatusDecorationProvider
  | FileDecorationProvider
  | Command (name : string)
  | TreeView
  | ConfigurationListener (setting : Setting)
  | CheckboxListener
  | ExpandListener
  | CollapseListener
  | StateListener
  | RepositoriesListener (uri : string)
  | LocalFileChangesListener (model : ReviewModel)
  | NotificationProviderD.

(** Entries into the provider's own methods, recorded in the trace. *)
Inductive Method :=
  | MgetChildren (element : option TreeNode)
  | MneedsRemotes.

(** Everything the provider does to the outside, in program order. *)
Inductive Event :=
  | EvEnter (m : Method)
  | EvNew (n : TreeNode)                       (* new ...Node(...) *)
  | EvDispose (n : TreeNode)                   (* n.dispose() *)
  | EvFire (node : option TreeNode)            (* _onDidChangeTreeData.fire *)
  | EvUpdateFromCheckboxChanged (n : TreeNode) (s : CheckboxState)
  | EvExpandPullRequest (n : TreeNode) (pr : PullRequestModel)
  | EvGetChildren (n : TreeNode)               (* element.getChildren() *)
  | EvCachedChildren (n : TreeNode)            (* element.cachedChildren() *)
  | EvFetchNextPage (n : TreeNode)             (* node.fetchNextPage = true *)
  | EvRelease (d : Disposable).                (* d.dispose() *)

#[global] Instance Method_eq_dec : EqDecision Method.
Proof. solve_decision. Defined.
#[global] Instance Disposable_eq_dec : EqDecision Disposable.
Proof. solve_decision. Defined.
#[global] Instance Event_eq_dec : EqDecision Event.
Proof. solve_decision. Defined.

(** The collaborators whose answers the provider only consumes. *)
Record Host := {
  (* getConfiguration(PR_SETTINGS_NAMESPACE).get<string[]>(REMOTES) *)
  remotesSetting : option (list string);
  (* the (type, id) of the category nodes built for a folder *)
  queryCategories : FolderRepositoryManager → list (PRType * string);
  (* truthiness of child.expandPullRequest(pullRequest) *)
  nodeExpandPullRequest : TreeNode → PullRequestModel → bool;
  (* element.getChildren() and element.cachedChildren() *)
  nodeGetChildren : TreeNode → list TreeNode;
  nodeCachedChildren : TreeNode → list TreeNode;
}.

(** [new NotificationProvider(this, credentialStore, reposManager)], over
    the store and the manager it was given. *)
Inductive NotificationProvider :=
  | NewNotificationProvider (store : CredentialStore)
      (reposManager : RepositoriesManager).

Definition loc := nat.

(** The provider's fields, the arrays [_children] has pointed to, the object
    counter, the workspace memento under [EXPANDED_QUERIES_STATE], the
    [LOADING_PRS_TREE] context key, and the trace. *)
Record State := mkState {
  _disposables : list Disposable;
  _children : loc;
  _reposManager : option RepositoriesManager;
  _initialized : bool;
  notificationProvider : option NotificationProvider;
  arrays : gmap loc (list TreeNode);
  nextRef : nat;
  workspaceState : option (list string);
  loadingContext : option bool;
  trace : list Event;
  host : Host;
}.

Definition with_disposables v s :=
  mkState v (_children s) (_reposManager s) (_initialized s) (notificationProvider s)
    (arrays s) (nextRef s) (workspaceState s) (loadingContext s) (trace s) (host s).
Definition with_children v s :=
  mkState (_disposables s) v (_reposManager s) (_initialized s) (notificationProvider s)
    (arrays s) (nextRef s) (workspaceState s) (loadingContext s) (trace s) (host s).
Definition with_reposManager v s :=
  mkState (_disposables s) (_children s) v (_initialized s) (notificationProvider s)
    (arrays s) (nextRef s) (workspaceState s) (loadingContext s) (trace s) (host s).
Definition with_initialized v s :=
  mkState (_disposables s) (_children s) (_reposManager s) v (notificationProvider s)
    (arrays s) (nextRef s) (workspaceState s) (loadingContext s) (trace s) (host s).
Definition with_notificationProvider v s :=
  mkState (_disposables s) (_children s) (_reposManager s) (_initialized s) v
    (arrays s) (nextRef s) (workspaceState s) (loadingContext s) (trace s) (host s).
Definition with_arrays v s :=
  mkState (_disposables s) (_children s) (_reposManager s) (_initialized s)
    (notificationProvider s) v (nextRef s) (workspaceState s) (loadingContext s)
    (trace s) (host s).
Definition with_nextRef v s :=
  mkState (_disposables s) (_children s) (_reposManager s) (_initialized s)
    (notificationProvider s) (arrays s) v (workspaceState s) (loadingContext s)
    (trace s) (host s).
Definition with_workspaceState v s :=
  mkState (_disposables s) (_children s) (_reposManager s) (_initialized s)
    (notificationProvider s) (arrays s) (nextRef s) v (loadingContext s)
    (trace s) (host s).
Definition with_loadingContext v s :=
  mkState (_disposables s) (_children s) (_reposManager s) (_initialized s)
    (notificationProvider s) (arrays s) (nextRef s) (workspaceState s) v
    (trace s) (host s).
Definition with_trace v s :=
  mkState (_disposables s) (_children s) (_reposManager s) (_initialized s)
    (notificationProvider s) (arrays s) (nextRef s) (workspaceState s)
    (loadingContext s) v (host s).
Definition with_host v s :=
  mkState (_disposables s) (_children s) (_reposManager s) (_initialized s)
    (notificationProvider s) (arrays s) (nextRef s) (workspaceState s)
    (loadingContext s) (trace s) v.

End Model.
Export Model.

(** ** The monad: state passing, with [throw] *)

Module Monad.

Inductive Result (A : Type) :=
  | Ok (a : A)
  | Throw (message : string).
Arguments Ok {A} a.
Arguments Throw {A} message.

Definition M (A : Type) : Type := State → Result A * State.

Definition ret {A} (a : A) : M A := fun s => (Ok a, s).

Definition bind {A B} (c : M A) (k : A → M B) : M B :=
  fun s => match c s with
           | (Ok a, s') => k a s'
           | (Throw m, s') => (Throw m, s')
           end.

Definition throw {A} (message : string) : M A := fun s => (Throw message, s).
Definition gets {A} (f : State → A) : M A := fun s => (Ok (f s), s).
Definition modify (f : State → State) : M unit := fun s => (Ok tt, f s).

Notation "'let!' x ':=' c 'in' k" := (bind c (fun x => k))
  (at level 10, x name, c at level 100, k at level 200).
Notation "'do!' c 'in' k" := (bind c (fun _ => k))
  (at level 10, c at level 100, k at level 200).

(** [xs.forEach(f)] *)
Fixpoint forEach {A} (f : A → M unit) (xs : list A) : M unit :=
  match xs with
  | [] => ret tt
  | x :: rest => do! f x in forEach f rest
  end.

(** [xs.map(f)] for an [f] with effects. *)
Fixpoint mapM {A B} (f : A → M B) (xs : list A) : M (list B) :=
  match xs with
  | [] => ret []
  | x :: rest => let! y := f x in let! ys := mapM f rest in ret (y :: ys)
  end.

Definition emit (e : Event) : M unit :=
  modify (fun s => with_trace (trace s ++ [e]) s).

End Monad.
Export Monad.

(** ** The provider *)

Module Provider.

(** The array [this._children] points to. *)
Definition children (s : State) : list TreeNode :=
  default [] (arrays s !! _children s).

(** [new X(...)]: a fresh object, recorded in the trace. *)
Definition newNode (k : NodeKind) : M TreeNode :=
  fun s =>
    let n := {| ref := nextRef s; kind := k |} in
    (Ok n, with_trace (trace s ++ [EvNew n]) (with_nextRef (S (nextRef s)) s)).

(** A fresh array holding [xs]; arrays are objects like any other. *)
Definition newArray (xs : list TreeNode) : M loc :=
  fun s =>
    let l := nextRef s in
    (Ok l, with_arrays (<[l := xs]> (arrays s)) (with_nextRef (S l) s)).

Definition push (ds : list Disposable) : M unit :=
  modify (fun s => with_disposables (_disposables s ++ ds) s).

(** The constructor: ten registrations, an empty root array, nothing
    initialized.  [memento] is what the workspace state holds under
    [EXPANDED_QUERIES_STATE] when the extension starts. *)
Definition constructor (h : Host) (memento : option (list string)) : State :=
  {| _disposables :=
       [ PRStatusDecorationProvider; FileDecorationProvider;
         Command "pr.refreshList"%string; Command "pr.loadMore"%string; TreeView;
         Command "pr.configurePRViewlet"%string;
         ConfigurationListener FILE_LIST_LAYOUT;
         CheckboxListener; ExpandListener; CollapseListener ];
     _children := 0;
     _reposManager := None;
     _initialized := false;
     notificationProvider := None;
     arrays := {[ 0 := [] ]};
     nextRef := 1;
     workspaceState := memento;
     loadingContext := None;
     trace := [];
     host := h |}.

(** [refresh(node?)] *)
Definition refresh (node : option TreeNode) : M unit := emit (EvFire node).

(** The handlers the constructor registers. *)
Definition refreshList : M unit := emit (EvFire None).

Definition loadMore (node : TreeNode) : M unit :=
  do! emit (EvFetchNextPage node) in emit (EvFire (Some node)).

Definition onDidChangeConfiguration (affected : Setting) : M unit :=
  do! (if decide (affected = FILE_LIST_LAYOUT) then emit (EvFire None) else ret tt) in
  let! init := gets _initialized in
  (* the listener [initializeCategories] adds *)
  if init && bool_decide (affected = QUERIES) then refresh None else ret tt.

Definition onDidChangeCheckboxState (items : list (TreeNode * CheckboxState)) : M unit :=
  forEach (fun checkboxUpdate =>
             let node := checkboxUpdate.1 in
             let newState := checkboxUpdate.2 in
             emit (EvUpdateFromCheckboxChanged node newState)) items.

(** A JavaScript [Set<string>], as its elements in insertion order. *)
Definition Set_add (x : string) (xs : list string) : list string :=
  if decide (x ∈ xs) then xs else xs ++ [x].
Definition Set_delete (x : string) (xs : list string) : list string :=
  filter (λ y, y ≠ x) xs.
Definition Set_new (xs : list string) : list string :=
  foldl (λ acc x, Set_add x acc) [] xs.

Definition _updateExpandedQueries (element : TreeNode) (isExpanded : bool) : M unit :=
  match kind element with
  | CategoryTreeNode _ id =>
      let! stored := gets workspaceState in
      let expandedQueries := Set_new (default [] stored) in
      let expandedQueries :=
        if isExpanded then Set_add id expandedQueries
        else Set_delete id expandedQueries in
      modify (with_workspaceState (Some expandedQueries))
  | _ => ret tt
  end.

Definition onDidExpandElement (element : TreeNode) : M unit :=
  _updateExpandedQueries element true.
Definition onDidCollapseElement (element : TreeNode) : M unit :=
  _updateExpandedQueries element false.

(** [initialize(reposManager, reviewModels, credentialStore)] *)
Definition initialize (reposManager : RepositoriesManager)
    (reviewModels : list ReviewModel) (store : CredentialStore) : M unit :=
  let! init := gets _initialized in
  if init then throw "Tree has already been initialized!"%string else
  do! modify (with_initialized true) in
  do! modify (with_reposManager (Some reposManager)) in
  do! push [StateListener] in
  do! push ((λ manager, RepositoriesListener (rootUri manager))
              <$> folderManagers reposManager) in
  do! push (LocalFileChangesListener <$> reviewModels) in
  do! modify (with_notificationProvider
                (Some (NewNotificationProvider store reposManager))) in
  do! push [NotificationProviderD] in
  (* initializeCategories() *)
  do! push [ConfigurationListener QUERIES] in
  refresh None.

(** Modelled from the spec: [findDotComAndEnterpriseRemotes] of
    [github/utils] is not part of this file; the enterprise remotes are
    those that exist "anywhere across folders". *)
Definition findDotComAndEnterpriseRemotes
    (managers : list FolderRepositoryManager) : list Remote :=
  flat_map (λ m, filter (λ r, authProvider r = githubEnterprise)
                   (computeAllGitHubRemotes m)) managers.

(** [needsRemotes()] *)
Definition needsRemotes : M (list TreeNode) :=
  do! emit (EvEnter MneedsRemotes) in
  let! rm := gets _reposManager in
  if bool_decide (state <$> rm = Some NeedsAuthentication) then ret [] else
  let! remotesSetting := gets (λ s, remotesSetting (host s)) in
  let! actions :=
    (if remotesSetting is Some _ then
       let! a := newNode (PRCategoryActionNode NoMatchingRemotes) in
       let! b := newNode (PRCategoryActionNode ConfigureRemotes) in
       ret [a; b]
     else
       let! a := newNode (PRCategoryActionNode NoRemotes) in
       ret [a]) in
  let enterpriseRemotes :=
    match rm with
    | Some m => findDotComAndEnterpriseRemotes (folderManagers m)
    | None => []
    end in
  if bool_decide (0 < length enterpriseRemotes)
     && negb (default false
               ((λ m, isAuthenticated (credentialStore m) githubEnterprise) <$> rm))
  then
    let! l := newNode (PRCategoryActionNode LoginEnterprise) in
    ret (actions ++ [l])
  else ret actions.

(** [cachedChildren(element?)] *)
Definition cachedChildren (element : option TreeNode) : M (list TreeNode) :=
  match element with
  | None => gets children
  | Some e =>
      do! emit (EvCachedChildren e) in
      gets (λ s, nodeCachedChildren (host s) e)
  end.

(** [xs.filter((x, index) => p(x, index))] *)
Fixpoint filter_index {A} (p : A → nat → bool) (i : nat) (xs : list A) : list A :=
  match xs with
  | [] => []
  | x :: rest =>
      if p x i then x :: filter_index p (S i) rest else filter_index p (S i) rest
  end.

(** [WorkspaceFolderNode.getCategoryTreeNodes(folderManager, ...)]: one new
    category node per category of the folder. *)
Definition getCategoryTreeNodes (folderManager : FolderRepositoryManager)
    : M (list TreeNode) :=
  let! categories := gets (λ s, queryCategories (host s) folderManager) in
  mapM (λ c, newNode (CategoryTreeNode c.1 c.2)) categories.

(** [getChildren(element?)] *)
Definition getChildren (element : option TreeNode) : M (list TreeNode) :=
  do! emit (EvEnter (MgetChildren element)) in
  let! rm := gets _reposManager in
  match rm with
  | None => ret []
  | Some reposManager =>
    if bool_decide (length (folderManagers reposManager) = 0) then ret [] else
    if bool_decide (state reposManager = Initializing) then
      do! modify (with_loadingContext (Some true)) in
      ret []
    else
    let remotes := getGitHubRemotes <$> folderManagers reposManager in
    if bool_decide
         (length (filter_index
                    (λ _manager index,
                       bool_decide (0 < length (default [] (remotes !! index))))
                    0 (folderManagers reposManager)) = 0)
    then needsRemotes
    else
    match element with
    | None =>
        let! old := gets children in
        do! (if bool_decide (0 < length old)
             then forEach (λ n, emit (EvDispose n)) old
             else ret tt) in
        let! result :=
          (if bool_decide (length (folderManagers reposManager) = 1) then
             match folderManagers reposManager with
             | folderManager :: _ => getCategoryTreeNodes folderManager
             | [] => ret []
             end
           else
             mapM (λ folderManager,
                     newNode (WorkspaceFolderNode (rootUri folderManager)))
               (folderManagers reposManager)) in
        let! l := newArray result in
        do! modify (with_children l) in
        ret result
    | Some e =>
        if bool_decide
             (length (filter (λ manager, 0 < length (repository_state_remotes manager))
                        (folderManagers reposManager)) = 0)
        then
          let! n := newNode (PRCategoryActionNode Empty) in
          ret [n]
        else
          do! emit (EvGetChildren e) in
          gets (λ s, nodeGetChildren (host s) e)
    end
  end.

(** The loop of [expandPullRequest] over the root array. *)
Fixpoint expandLoop (pullRequest : PullRequestModel) (cs : list TreeNode) : M unit :=
  match cs with
  | [] => ret tt
  | child :: rest =>
      match kind child with
      | WorkspaceFolderNode _ =>
          do! emit (EvExpandPullRequest child pullRequest) in
          let! found := gets (λ s, nodeExpandPullRequest (host s) child pullRequest) in
          if found then ret tt else expandLoop pullRequest rest
      | CategoryTreeNode type _ =>
          if decide (type = All) then
            do! emit (EvExpandPullRequest child pullRequest) in
            let! found := gets (λ s, nodeExpandPullRequest (host s) child pullRequest) in
            if found then ret tt else expandLoop pullRequest rest
          else expandLoop pullRequest rest
      | _ => expandLoop pullRequest rest   (* outside the type of [_children] *)
      end
  end.

(** [expandPullRequest(pullRequest)] *)
Definition expandPullRequest (pullRequest : PullRequestModel) : M unit :=
  let! cs := gets children in
  do! (if bool_decide (length cs = 0)
       then do! getChildren None in ret tt
       else ret tt) in
  let! cs := gets children in
  expandLoop pullRequest cs.

(** [dispose()] *)
Definition dispose : M unit :=
  let! ds := gets _disposables in
  forEach (λ d, emit (EvRelease d)) ds.

End Provider.
Export Provider.

(** ** Histories of the provider *)

Module Runs.

(** What can happen to a provider after its construction: the host or the
    extension calls a method, a registered handler runs, or the
    collaborators change behind its back ([Oworld]: the repositories manager
    is a shared object, and the host's answers vary over time). *)
Inductive Op :=
  | Oinitialize (reposManager : RepositoriesManager) (reviewModels : list ReviewModel)
      (store : CredentialStore)
  | OgetChildren (element : option TreeNode)
  | OcachedChildren (element : option TreeNode)
  | OexpandPullRequest (pullRequest : PullRequestModel)
  | Orefresh (node : option TreeNode)
  | OrefreshList
  | OloadMore (node : TreeNode)
  | OconfigurationChanged (affected : Setting)
  | OcheckboxChanged (items : list (TreeNode * CheckboxState))
  | Oexpanded (element : TreeNode)
  | Ocollapsed (element : TreeNode)
  | Odispose
  | Oworld (reposManager : RepositoriesManager) (h : Host).

Definition world (reposManager : RepositoriesManager) (h : Host) : M unit :=
  modify (λ s,
    with_host h
      (with_reposManager
         (if _reposManager s is Some _ then Some reposManager else None) s)).

Definition discard {A} (c : M A) : M unit := do! c in ret tt.

Definition exec (o : Op) : M unit :=
  match o with
  | Oinitialize reposManager reviewModels store =>
      initialize reposManager reviewModels store
  | OgetChildren element => discard (getChildren element)
  | OcachedChildren element => discard (cachedChildren element)
  | OexpandPullRequest pullRequest => expandPullRequest pullRequest
  | Orefresh node => refresh node
  | OrefreshList => refreshList
  | OloadMore node => loadMore node
  | OconfigurationChanged affected => onDidChangeConfiguration affected
  | OcheckboxChanged items => onDidChangeCheckboxState items
  | Oexpanded element => onDidExpandElement element
  | Ocollapsed element => onDidCollapseElement element
  | Odispose => dispose
  | Oworld reposManager h => world reposManager h
  end.

(** A call that throws leaves the state as it was when it threw. *)
Definition step (s : State) (o : Op) : State := (exec o s).2.
Definition run (ops : list Op) (s : State) : State := foldl step s ops.

Definition reachable (s : State) : Prop :=
  ∃ h memento ops, s = run ops (constructor h memento).

(** The nodes whose [dispose] the trace records, in order. *)
Definition disposed (t : list Event) : list TreeNode :=
  omap (λ e, if e is EvDispose n then Some n else None) t.

(** The events of [s'] that [s] does not have yet. *)
Definition since (s s' : State) : list Event := drop (length (trace s)) (trace s').

Definition occurrences (e : Event) (t : list Event) : nat :=
  length (filter (λ x, x = e) t).

(** The declared type of [_children] is
    [WorkspaceFolderNode[] | CategoryTreeNode[]]. *)
Definition rootKind (k : NodeKind) : Prop :=
  match k with
  | WorkspaceFolderNode _ | CategoryTreeNode _ _ => True
  | _ => False
  end.

(** The well-formedness of a provider state: arrays and nodes are objects
    allocated in the past, the root array exists, its nodes are distinct
    objects of the declared type, and none of them has been disposed. *)
Record wf (s : State) : Prop := {
  wf_arrays : ∀ l xs, arrays s !! l = Some xs → l < nextRef s;
  wf_children : is_Some (arrays s !! _children s);
  wf_nodup : NoDup (ref <$> children s);
  wf_refs : ∀ n, n ∈ children s → ref n < nextRef s;
  wf_disposed_refs : ∀ n, n ∈ disposed (trace s) → ref n < nextRef s;
  wf_live : ∀ n, n ∈ children s → n ∉ disposed (trace s);
  wf_once : NoDup (disposed (trace s));
  wf_kinds : ∀ n, n ∈ children s → rootKind (kind n);
}.

(** A transition that neither touches the root array nor disposes a node. *)
Record quiet (s s' : State) : Prop := {
  quiet_arrays : arrays s' = arrays s;
  quiet_children : _children s' = _children s;
  quiet_nextRef : nextRef s ≤ nextRef s';
  quiet_disposed : disposed (trace s') = disposed (trace s);
}.

(** A computation all of whose transitions lie in [R]. *)
Definition respects {A} (R : relation State) (c : M A) : Prop :=
  ∀ s r s', c s = (r, s') → R s s'.

End Runs.
Export Runs.

(** ** States and results of [getChildren] *)

(** The nodes that [ks.map(k => new Node(k))] allocates from [base] on. *)
Fixpoint freshNodes (base : nat) (ks : list NodeKind) : list TreeNode :=
  match ks with
  | [] => []
  | k :: rest => {| ref := base; kind := k |} :: freshNodes (S base) rest
  end.

(** The GitHub-remotes test of [getChildren], and what it decides. *)
Definition noGitHubRemotes (reposManager : RepositoriesManager) : bool :=
  let remotes := getGitHubRemotes <$> folderManagers reposManager in
  bool_decide
    (length (filter_index
               (λ _manager index,
                  bool_decide (0 < length (default [] (remotes !! index))))
               0 (folderManagers reposManager)) = 0).

(** The native-remotes test of [getChildren]. *)
Definition noNativeRemotes (reposManager : RepositoriesManager) : bool :=
  bool_decide
    (length (filter (λ manager, 0 < length (repository_state_remotes manager))
               (folderManagers reposManager)) = 0).

(** The state in which [getChildren] finds the provider once it has been
    entered. *)
Definition entered (element : option TreeNode) (s : State) : State :=
  with_trace (trace s ++ [EvEnter (MgetChildren element)]) s.

(** The kinds of the root set that [getChildren] builds. *)
Definition rootKinds (h : Host) (reposManager : RepositoriesManager) : list NodeKind :=
  if bool_decide (length (folderManagers reposManager) = 1) then
    match folderManagers reposManager with
    | folderManager :: _ =>
        (λ c, CategoryTreeNode c.1 c.2) <$> queryCategories h folderManager
    | [] => []
    end
  else (λ m, WorkspaceFolderNode (rootUri m)) <$> folderManagers reposManager.

(** The state after [getChildren()] has rebuilt the root set. *)
Definition rebuilt (s : State) (reposManager : RepositoriesManager) : State :=
  let result := freshNodes (nextRef s) (rootKinds (host s) reposManager) in
  let l := nextRef s + length result in
  with_children l
    (with_arrays (<[l := result]> (arrays s))
       (with_nextRef (S l)
          (with_trace (trace s ++ [EvEnter (MgetChildren None)]
                         ++ (EvDispose <$> children s) ++ (EvNew <$> result)) s))).

(** ** The Remote-Readiness Gate *)

Module Gate.

(** The gate's policy as the specification words it, rule by rule: a
    function of the readiness state, of whether a remotes allowlist is set,
    of whether some enterprise remote exists and of whether enterprise
    authentication is established. *)
Definition policy (readiness : option ReposManagerState)
    (allowlist enterpriseRemote enterpriseAuth : bool) : list PRCategoryActionType :=
  if decide (readiness = Some NeedsAuthentication) then []
  else
    (if allowlist then [NoMatchingRemotes; ConfigureRemotes] else [NoRemotes])
    ++ (if enterpriseRemote && negb enterpriseAuth then [LoginEnterprise] else []).

(** The four inputs of the policy, read off a provider state. *)
Definition readiness (s : State) : option ReposManagerState :=
  state <$> _reposManager s.
Definition allowlist (s : State) : bool :=
  if remotesSetting (host s) is Some _ then true else false.
Definition enterpriseRemote (s : State) : bool :=
  match _reposManager s with
  | Some m => bool_decide (0 < length (findDotComAndEnterpriseRemotes (folderManagers m)))
  | None => false
  end.
Definition enterpriseAuth (s : State) : bool :=
  match _reposManager s with
  | Some m => isAuthenticated (credentialStore m) githubEnterprise
  | None => false
  end.

Definition decision (s : State) : list PRCategoryActionType :=
  policy (readiness s) (allowlist s) (enterpriseRemote s) (enterpriseAuth s).

End Gate.

(** ** Events and fields over a history *)

(** The set that the memento stores under [EXPANDED_QUERIES_STATE], read the
    way the provider reads it: [get(EXPANDED_QUERIES_STATE, [])]. *)
Definition persisted (s : State) : gset string :=
  list_to_set (default [] (workspaceState s)).

(** [_initialized] is not reset from [s] to [s']. *)
Definition initialized_kept : relation State :=
  λ s s', _initialized s = true → _initialized s' = true.


Definition isDispose (e : Event) : Prop := ∃ n, e = EvDispose n.

(** Entries of [getChildren], and calls of [expandPullRequest] on a node. *)
Definition isFetch (e : Event) : bool :=
  if e is EvEnter (MgetChildren _) then true else false.
Definition isAsk (e : Event) : bool :=
  if e is EvExpandPullRequest _ _ then true else false.
Definition fetches (t : list Event) : nat := length (filter (λ e, isFetch e) t).

(** What [getChildren] records after its own entry holds neither a further
    entry of [getChildren] nor a call of [expandPullRequest] on a node. *)
Definition inner (e : Event) : Prop := isFetch e = false ∧ isAsk e = false.

(** ** The nodes [expandPullRequest] asks *)

(** The root children the loop delegates to: workspace-folder nodes and the
    category node of type [All]. *)
Definition delegable (child : TreeNode) : bool :=
  match kind child with
  | WorkspaceFolderNode _ => true
  | CategoryTreeNode type _ => bool_decide (type = All)
  | _ => false
  end.

(** A list up to and including its first element that satisfies [p]. *)
Fixpoint uptoFirst {A} (p : A → bool) (xs : list A) : list A :=
  match xs with
  | [] => []
  | x :: rest => if p x then [x] else x :: uptoFirst p rest
  end.

(** The children [expandPullRequest] asks, in order. *)
Definition asked (h : Host) (pullRequest : PullRequestModel) (cs : list TreeNode)
    : list TreeNode :=
  uptoFirst (λ c, nodeExpandPullRequest h c pullRequest) (filter (λ c, delegable c) cs).

(** ** Concrete providers *)

Module Examples.

Definition noRemotesFolder : FolderRepositoryManager :=
  {| rootUri := "file:///work/app"%string;
     getGitHubRemotes := [];
     computeAllGitHubRemotes := [];
     repository_state_remotes := [] |}.

Definition enterpriseFolder : FolderRepositoryManager :=
  {| rootUri := "file:///work/corp"%string;
     getGitHubRemotes := [];
     computeAllGitHubRemotes :=
       [ {| remoteName := "origin"%string; authProvider := githubEnterprise |} ];
     repository_state_remotes := [ "origin"%string ] |}.

Definition githubFolder : FolderRepositoryManager :=
  {| rootUri := "file:///work/oss"%string;
     getGitHubRemotes := [ {| remoteName := "origin"%string; authProvider := github |} ];
     computeAllGitHubRemotes :=
       [ {| remoteName := "origin"%string; authProvider := github |} ];
     repository_state_remotes := [ "origin"%string ] |}.

(** Signed in to github.com only. *)
Definition store : CredentialStore :=
  {| isAuthenticated := λ p, bool_decide (p = github) |}.

Definition manager (st : ReposManagerState) (folders : list FolderRepositoryManager)
    : RepositoriesManager :=
  {| state := st; folderManagers := folders; credentialStore := store |}.

Definition hostWith (setting : option (list string)) : Host :=
  {| remotesSetting := setting;
     queryCategories := λ _,
       [ (LocalPullRequest, "Local Pull Request Branches"%string);
         (Query, "Created By Me"%string);
         (All, "All"%string) ];
     nodeExpandPullRequest := λ _ _, false;
     nodeGetChildren := λ _, [];
     nodeCachedChildren := λ _, [] |}.

(** A provider right after construction. *)
Definition fresh : State := constructor (hostWith None) None.

(** A provider initialized over [folders], the manager being in state [st]
    and the remotes setting being [setting]. *)
Definition started (st : ReposManagerState) (folders : list FolderRepositoryManager)
    (setting : option (list string)) : State :=
  run [Oinitialize (manager st folders) [] store]
    (constructor (hostWith setting) None).

(** A provider that has shown the categories of one folder, whose remotes
    then disappear. *)
Definition lostRemotes : State :=
  run [ Oinitialize (manager RepositoriesLoaded [githubFolder]) [] store;
        OgetChildren None;
        Oworld (manager RepositoriesLoaded [noRemotesFolder]) (hostWith None) ]
    (constructor (hostWith None) None).

End Examples.

(** ** Two statements that do not hold *)

(** C3, as stated: a root request with no native remote in any folder
    repository answers with a single [Empty] placeholder. *)
Definition empty_placeholder_at_root (s : State) : Prop :=
  ∀ rm, _reposManager s = Some rm →
    Forall (λ m, repository_state_remotes m = []) (folderManagers rm) →
    ∃ n, (getChildren None s).1 = Ok [n] ∧ kind n = PRCategoryActionNode Empty.

(** C5, as stated, at a category node [Q] and a state [s]: an expand event
    followed by a collapse event restores the persisted set. *)
Definition expand_collapse_restores (Q : TreeNode) (s : State) : Prop :=
  persisted (onDidCollapseElement Q (onDidExpandElement Q s).2).2 = persisted s.

(** ** Notions for the further properties *)

(** The kinds of the nodes of a root set, as a test. *)
Definition isRoot (k : NodeKind) : bool :=
  match k with
  | WorkspaceFolderNode _ | CategoryTreeNode _ _ => true
  | _ => false
  end.

(** Constructions of root nodes, and firings of the change emitter. *)
Definition isBuilt (e : Event) : bool :=
  if e is EvNew n then isRoot (kind n) else false.
Definition isFire (e : Event) : bool :=
  if e is EvFire _ then true else false.

(** From [s] to [s'] the trace only grows, by events outside [P]. *)
Definition keeps (P : Event → bool) : relation State :=
  λ s s', ∃ t, trace s' = trace s ++ t ∧ Forall (λ e, P e = false) t.

(** A quiet transition that constructs no root node. *)
Definition calm : relation State :=
  λ s s', quiet s s' ∧ keeps isBuilt s s'.

(** Every root node constructed so far is disposed or in the root set. *)
Definition leakfree (s : State) : Prop :=
  filter (λ e, isBuilt e) (trace s)
  = EvNew <$> (disposed (trace s) ++ children s).

(** Whether [getChildren(element)] gets as far as rebuilding the root set. *)
Definition rebuilds (element : option TreeNode) (s : State) : bool :=
  match element, _reposManager s with
  | None, Some rm =>
      negb (bool_decide (length (folderManagers rm) = 0))
      && negb (bool_decide (state rm = Initializing))
      && negb (noGitHubRemotes rm)
  | _, _ => false
  end.

(** What the constructor pushes on [_disposables], and what [initialize]
    adds to it. *)
Definition constructed : list Disposable :=
  [ PRStatusDecorationProvider; FileDecorationProvider;
    Command "pr.refreshList"%string; Command "pr.loadMore"%string; TreeView;
    Command "pr.configurePRViewlet"%string;
    ConfigurationListener FILE_LIST_LAYOUT;
    CheckboxListener; ExpandListener; CollapseListener ].

Definition wiring (reposManager : RepositoriesManager)
    (reviewModels : list ReviewModel) : list Disposable :=
  [StateListener]
  ++ ((λ manager, RepositoriesListener (rootUri manager))
        <$> folderManagers reposManager)
  ++ (LocalFileChangesListener <$> reviewModels)
  ++ [NotificationProviderD; ConfigurationListener QUERIES].

(** The subscriptions of a provider are those of its construction, followed
    after the one successful [initialize] by those of that call. *)
Definition wired (s : State) : Prop :=
  (_initialized s = false ∧ _disposables s = constructed
   ∧ _reposManager s = None ∧ notificationProvider s = None)
  ∨ (_initialized s = true ∧ is_Some (_reposManager s)
     ∧ ∃ rm reviewModels store,
         _disposables s = constructed ++ wiring rm reviewModels
         ∧ notificationProvider s = Some (NewNotificationProvider store rm)).

(** A transition that leaves the wiring of the provider alone. *)
Definition fixed : relation State :=
  λ s s', _disposables s' = _disposables s
          ∧ _initialized s' = _initialized s
          ∧ notificationProvider s' = notificationProvider s
          ∧ (_reposManager s' = None ↔ _reposManager s = None).

(** The loading context key is not cleared from [s] to [s']. *)
Definition loading_kept : relation State :=
  λ s s', (loadingContext s = Some true → loadingContext s' = Some true)
          ∧ (loadingContext s ≠ Some false → loadingContext s' ≠ Some false).

(** A transition that leaves the stored manager and the host alone. *)
Definition same_manager : relation State :=
  λ s s', _reposManager s' = _reposManager s ∧ host s' = host s.


(** ** Reasoning about computations *)

Section respects.
Context (R : relation State) `{!PreOrder R}.

Lemma respects_ret {A} (a : A) : respects R (ret a).
Proof. intros s r s' [= <- <-]. reflexivity. Qed.

Lemma respects_throw {A} m : respects R (@throw A m).
Proof. intros s r s' [= <- <-]. reflexivity. Qed.

Lemma respects_gets {A} (f : State → A) : respects R (gets f).
Proof. intros s r s' [= <- <-]. reflexivity. Qed.

Lemma respects_bind {A B} (c : M A) (k : A → M B) :
  respects R c → (∀ a, respects R (k a)) → respects R (bind c k).
Proof.
  intros Hc Hk s r s'. unfold bind.
  destruct (c s) as [[a|m] s1] eqn:E; intros H.
  - etransitivity; [exact (Hc _ _ _ E) | exact (Hk _ _ _ _ H)].
  - injection H as <- <-. exact (Hc _ _ _ E).
Qed.

Lemma respects_modify (f : State → State) :
  (∀ s, R s (f s)) → respects R (modify f).
Proof. intros Hf s r s' [= <- <-]. apply Hf. Qed.

Lemma respects_forEach {A} (f : A → M unit) xs :
  (∀ x, respects R (f x)) → respects R (forEach f xs).
Proof.
  intros Hf. induction xs as [|x xs IH]; simpl.
  - apply respects_ret.
  - apply respects_bind; auto.
Qed.

Lemma respects_mapM {A B} (f : A → M B) xs :
  (∀ x, respects R (f x)) → respects R (mapM f xs).
Proof.
  intros Hf. induction xs as [|x xs IH]; simpl.
  - apply respects_ret.
  - apply respects_bind; [auto|]. intros y.
    apply respects_bind; [auto|]. intros ys. apply respects_ret.
Qed.
End respects.

(** ** Running the primitives *)

Lemma with_trace_id s : with_trace (trace s) s = s.
Proof. by destruct s. Qed.

Lemma since_extend s s' t : trace s' = trace s ++ t → since s s' = t.
Proof. intros E. unfold since. by rewrite E, drop_app_length. Qed.

Lemma forEach_emit {A} (f : A → Event) xs s :
  forEach (λ x, emit (f x)) xs s = (Ok tt, with_trace (trace s ++ (f <$> xs)) s).
Proof.
  revert s. induction xs as [|x xs IH]; intros s; simpl.
  - by rewrite app_nil_r, with_trace_id.
  - unfold bind at 1. unfold emit at 1, modify. rewrite IH. simpl.
    by rewrite <- app_assoc.
Qed.

Lemma mapM_newNode {A} (f : A → NodeKind) xs s :
  mapM (λ x, newNode (f x)) xs s =
    (Ok (freshNodes (nextRef s) (f <$> xs)),
     with_trace (trace s ++ (EvNew <$> freshNodes (nextRef s) (f <$> xs)))
       (with_nextRef (nextRef s + length xs) s)).
Proof.
  revert s. induction xs as [|x xs IH]; intros s; simpl.
  - rewrite app_nil_r, Nat.add_0_r. by destruct s.
  - unfold bind at 1. unfold newNode at 1. unfold bind at 1. rewrite IH. simpl.
    rewrite <- app_assoc. simpl. by rewrite Nat.add_succ_r.
Qed.

Lemma length_freshNodes base ks : length (freshNodes base ks) = length ks.
Proof. revert base. induction ks; intros; simpl; auto. Qed.

Lemma freshNodes_kinds base ks : kind <$> freshNodes base ks = ks.
Proof. revert base. induction ks; intros; simpl; f_equal; auto. Qed.

Lemma freshNodes_refs base ks n :
  n ∈ freshNodes base ks → base ≤ ref n < base + length ks.
Proof.
  revert base. induction ks as [|k ks IH]; intros base; simpl.
  - by intros ?%elem_of_nil.
  - intros [->|H]%elem_of_cons; simpl; [lia|]. apply IH in H. lia.
Qed.

Lemma freshNodes_NoDup base ks : NoDup (ref <$> freshNodes base ks).
Proof.
  revert base. induction ks as [|k ks IH]; intros base; simpl.
  - constructor.
  - constructor; [|apply IH].
    intros (n & E & H%freshNodes_refs)%list_elem_of_fmap. lia.
Qed.

Lemma filter_index_remotes (pre ms : list FolderRepositoryManager) :
  filter_index
    (λ _manager index,
       bool_decide (0 < length (default [] ((getGitHubRemotes <$> pre ++ ms) !! index))))
    (length pre) ms
  = filter (λ m, 0 < length (getGitHubRemotes m)) ms.
Proof.
  revert pre. induction ms as [|m ms IH]; intros pre; [done|].
  simpl. rewrite filter_cons.
  replace ((getGitHubRemotes <$> pre ++ m :: ms) !! length pre)
    with (Some (getGitHubRemotes m)).
  2:{ rewrite fmap_app. rewrite lookup_app_r by (by rewrite length_fmap).
      by rewrite length_fmap, Nat.sub_diag. }
  simpl.
  specialize (IH (pre ++ [m])). rewrite length_app in IH. simpl in IH.
  rewrite Nat.add_1_r in IH. rewrite <- app_assoc in IH. simpl in IH.
  rewrite IH.
  destruct (decide (0 < length (getGitHubRemotes m))).
  - by rewrite bool_decide_eq_true_2.
  - by rewrite bool_decide_eq_false_2.
Qed.

Lemma filter_nil_Forall {A} (P : A → Prop) `{!∀ x, Decision (P x)} (l : list A) :
  length (filter P l) = 0 ↔ Forall (λ x, ¬ P x) l.
Proof.
  induction l as [|x l IH]; [by split; [constructor|]|].
  rewrite filter_cons. destruct (decide (P x)); simpl.
  - split; [lia|]. by intros [? ?]%Forall_cons.
  - rewrite IH, Forall_cons. tauto.
Qed.

Lemma noGitHubRemotes_spec rm :
  noGitHubRemotes rm = true ↔ Forall (λ m, getGitHubRemotes m = []) (folderManagers rm).
Proof.
  unfold noGitHubRemotes.
  pose proof (filter_index_remotes [] (folderManagers rm)) as E. simpl in E.
  rewrite E, bool_decide_eq_true, filter_nil_Forall.
  apply Forall_proper; [|done]. intros m.
  destruct (getGitHubRemotes m); simpl; split; (done || lia).
Qed.

Lemma noNativeRemotes_spec rm :
  noNativeRemotes rm = true ↔
  Forall (λ m, repository_state_remotes m = []) (folderManagers rm).
Proof.
  unfold noNativeRemotes. rewrite bool_decide_eq_true, filter_nil_Forall.
  apply Forall_proper; [|done]. intros m.
  destruct (repository_state_remotes m); simpl; split; (done || lia).
Qed.

(** ** The branches of [getChildren] *)

Lemma getChildren_no_manager element s :
  _reposManager s = None →
  getChildren element s = (Ok [], entered element s).
Proof.
  intros E. unfold getChildren, bind, emit, modify, gets, ret; simpl. by rewrite E.
Qed.

Lemma getChildren_no_folders element s rm :
  _reposManager s = Some rm → folderManagers rm = [] →
  getChildren element s = (Ok [], entered element s).
Proof.
  intros E F. unfold getChildren, bind, emit, modify, gets, ret; simpl.
  by rewrite E, F.
Qed.

Lemma length_zero_false {A} (l : list A) : l ≠ [] → bool_decide (length l = 0) = false.
Proof. intros H. apply bool_decide_eq_false_2. by destruct l. Qed.

Lemma getChildren_initializing element s rm :
  _reposManager s = Some rm → folderManagers rm ≠ [] → state rm = Initializing →
  getChildren element s = (Ok [], with_loadingContext (Some true) (entered element s)).
Proof.
  intros E F I. unfold getChildren, bind, emit, modify, gets, ret; simpl.
  by rewrite E, (length_zero_false _ F), I.
Qed.

Lemma getChildren_gate element s rm :
  _reposManager s = Some rm → folderManagers rm ≠ [] → state rm ≠ Initializing →
  noGitHubRemotes rm = true →
  getChildren element s = needsRemotes (entered element s).
Proof.
  intros E F I G. unfold getChildren. unfold bind at 1, emit at 1, modify at 1.
  unfold bind at 1, gets at 1. simpl. rewrite E, (length_zero_false _ F).
  rewrite (bool_decide_eq_false_2 _ I).
  unfold noGitHubRemotes in G. by rewrite G.
Qed.

Lemma getChildren_root s rm :
  _reposManager s = Some rm → folderManagers rm ≠ [] → state rm ≠ Initializing →
  noGitHubRemotes rm = false →
  getChildren None s =
    (Ok (freshNodes (nextRef s) (rootKinds (host s) rm)), rebuilt s rm).
Proof.
  intros E F I G. unfold getChildren. unfold bind at 1, emit at 1, modify at 1.
  unfold bind at 1, gets at 1. simpl. rewrite E, (length_zero_false _ F).
  rewrite (bool_decide_eq_false_2 _ I).
  unfold noGitHubRemotes in G. rewrite G. clear G.
  unfold bind at 1, gets at 1. unfold bind at 1.
  set (s1 := with_trace _ s).
  assert (Hd : (if bool_decide (0 < length (children s1))
                then forEach (λ n, emit (EvDispose n)) (children s1)
                else ret tt) s1
               = (Ok tt, with_trace (trace s1 ++ (EvDispose <$> children s1)) s1)).
  { case_bool_decide as L.
    - apply forEach_emit.
    - destruct (children s1); [|simpl in L; lia].
      unfold ret. rewrite fmap_nil, app_nil_r. by rewrite with_trace_id. }
  rewrite Hd. clear Hd. unfold bind at 1.
  set (s2 := with_trace _ s1).
  assert (Hr : (if bool_decide (length (folderManagers rm) = 1)
                then match folderManagers rm with
                     | folderManager :: _ => getCategoryTreeNodes folderManager
                     | [] => ret []
                     end
                else mapM (λ folderManager,
                             newNode (WorkspaceFolderNode (rootUri folderManager)))
                       (folderManagers rm)) s2
               = (Ok (freshNodes (nextRef s) (rootKinds (host s) rm)),
                  with_trace (trace s2 ++
                                (EvNew <$> freshNodes (nextRef s) (rootKinds (host s) rm)))
                    (with_nextRef (nextRef s + length (rootKinds (host s) rm)) s2))).
  { unfold rootKinds. case_bool_decide as L.
    - destruct (folderManagers rm) as [|fm ?]; [done|].
      unfold getCategoryTreeNodes, bind, gets. rewrite mapM_newNode.
      by rewrite length_fmap.
    - rewrite mapM_newNode. by rewrite length_fmap. }
  rewrite Hr. clear Hr. unfold newArray, bind, modify, ret. simpl.
  unfold rebuilt. rewrite length_freshNodes. f_equal.
  unfold with_children, with_arrays, with_nextRef, with_trace; simpl.
  f_equal. by rewrite <- !app_assoc.
Qed.

Lemma getChildren_empty e s rm :
  _reposManager s = Some rm → folderManagers rm ≠ [] → state rm ≠ Initializing →
  noGitHubRemotes rm = false → noNativeRemotes rm = true →
  getChildren (Some e) s =
    (let n := {| ref := nextRef s; kind := PRCategoryActionNode Empty |} in
     (Ok [n],
      with_trace (trace s ++ [EvEnter (MgetChildren (Some e)); EvNew n])
        (with_nextRef (S (nextRef s)) s))).
Proof.
  intros E F I G N. unfold getChildren. unfold bind at 1, emit at 1, modify at 1.
  unfold bind at 1, gets at 1. simpl. rewrite E, (length_zero_false _ F).
  rewrite (bool_decide_eq_false_2 _ I).
  unfold noGitHubRemotes in G. rewrite G.
  unfold noNativeRemotes in N. rewrite N.
  unfold bind, newNode, ret. simpl. by rewrite <- app_assoc.
Qed.

Lemma getChildren_delegate e s rm :
  _reposManager s = Some rm → folderManagers rm ≠ [] → state rm ≠ Initializing →
  noGitHubRemotes rm = false → noNativeRemotes rm = false →
  getChildren (Some e) s =
    (Ok (nodeGetChildren (host s) e),
     with_trace (trace s ++ [EvEnter (MgetChildren (Some e)); EvGetChildren e]) s).
Proof.
  intros E F I G N. unfold getChildren. unfold bind at 1, emit at 1, modify at 1.
  unfold bind at 1, gets at 1. simpl. rewrite E, (length_zero_false _ F).
  rewrite (bool_decide_eq_false_2 _ I).
  unfold noGitHubRemotes in G. rewrite G.
  unfold noNativeRemotes in N. rewrite N.
  unfold bind, emit, modify, gets. simpl. by rewrite <- app_assoc.
Qed.

(** Two results are equal when their values and every field of their states
    are. *)
Ltac state_eq :=
  unfold with_disposables, with_children, with_reposManager, with_initialized,
    with_notificationProvider, with_arrays, with_nextRef, with_workspaceState,
    with_loadingContext, with_trace, with_host; simpl;
  rewrite <- ?app_assoc; simpl;
  try (apply (f_equal2 pair); [reflexivity|]);
  f_equal; try reflexivity; try lia.

(** [needsRemotes] allocates one action node per entry of the policy's
    answer, in order, and does nothing else. *)
Lemma needsRemotes_run s :
  needsRemotes s =
    (let nodes := freshNodes (nextRef s) (PRCategoryActionNode <$> Gate.decision s) in
     (Ok nodes,
      with_trace (trace s ++ EvEnter MneedsRemotes :: (EvNew <$> nodes))
        (with_nextRef (nextRef s + length nodes) s))).
Proof.
  unfold needsRemotes, Gate.decision, Gate.policy, Gate.readiness, Gate.allowlist,
    Gate.enterpriseRemote, Gate.enterpriseAuth.
  unfold bind at 1, emit at 1, modify at 1. unfold bind at 1, gets at 1.
  destruct s as [ds ch [rm|] ini np ar nx ws lc tr h];
    cbn [_reposManager with_trace host nextRef trace fmap option_fmap option_map].
  - destruct (decide (state rm = NeedsAuthentication)) as [NA|NA].
    + rewrite bool_decide_eq_true_2 by congruence.
      rewrite decide_True by congruence. unfold ret. cbn.
      by rewrite Nat.add_0_r.
    + rewrite bool_decide_eq_false_2 by congruence.
      rewrite decide_False by congruence.
      set (b := bool_decide (0 < _)).
      unfold bind, gets, newNode, ret. cbn.
      destruct (remotesSetting h), b,
        (isAuthenticated (credentialStore rm) githubEnterprise); cbn.
      all: rewrite <- ?app_assoc; cbn; rewrite ?Nat.add_succ_r, ?Nat.add_0_r;
        reflexivity.
  - rewrite bool_decide_eq_false_2 by congruence.
    rewrite decide_False by congruence.
    unfold bind, gets, newNode, ret. cbn.
    destruct (remotesSetting h); cbn.
    all: rewrite <- ?app_assoc; cbn; rewrite ?Nat.add_succ_r, ?Nat.add_0_r;
      reflexivity.
Qed.

(** ** Quiet transitions and the invariant *)

#[global] Instance quiet_preorder : PreOrder quiet.
Proof.
  split.
  - intros s. by split.
  - intros s1 s2 s3 [A1 C1 N1 D1] [A2 C2 N2 D2].
    split; [congruence | congruence | lia | congruence].
Qed.

Lemma disposed_app t u : disposed (t ++ u) = disposed t ++ disposed u.
Proof. apply omap_app. Qed.

Lemma disposed_dispose ns : disposed (EvDispose <$> ns) = ns.
Proof.
  induction ns as [|n ns IH]; [done|].
  rewrite fmap_cons. unfold disposed in *. simpl. by f_equal.
Qed.

Lemma disposed_new ns : disposed (EvNew <$> ns) = [].
Proof.
  induction ns as [|n ns IH]; [done|].
  rewrite fmap_cons. unfold disposed in *. by simpl.
Qed.

Lemma disposed_other e : ¬ isDispose e → disposed [e] = [].
Proof. intros H. destruct e; try done. destruct H. by eexists. Qed.

Lemma disposed_fmap_other {A} (f : A → Event) xs :
  (∀ x, ¬ isDispose (f x)) → disposed (f <$> xs) = [].
Proof.
  intros H. induction xs as [|x xs IH]; [done|].
  rewrite fmap_cons. change (f x :: ?t) with ([f x] ++ t).
  by rewrite disposed_app, IH, (disposed_other _ (H x)).
Qed.

Lemma quiet_emit e : ¬ isDispose e → respects quiet (emit e).
Proof.
  intros H s r s' [= <- <-]. split; simpl; [done|done|lia|].
  by rewrite disposed_app, (disposed_other _ H), app_nil_r.
Qed.

Lemma quiet_newNode k : respects quiet (newNode k).
Proof.
  intros s r s' [= <- <-]. split; simpl; [done|done|lia|].
  by rewrite disposed_app, app_nil_r.
Qed.

Lemma quiet_needsRemotes : respects quiet needsRemotes.
Proof.
  intros s r s'. rewrite needsRemotes_run. intros [= <- <-].
  split; simpl; [done|done|lia|].
  rewrite disposed_app. change (EvEnter MneedsRemotes :: ?t) with ([EvEnter MneedsRemotes] ++ t).
  by rewrite disposed_app, disposed_new, app_nil_r.
Qed.

Lemma quiet_entered element s : quiet s (entered element s).
Proof.
  split; simpl; [done|done|lia|]. by rewrite disposed_app, app_nil_r.
Qed.

Lemma quiet_children_eq s s' : quiet s s' → children s' = children s.
Proof. intros [A C _ _]. unfold children. by rewrite A, C. Qed.

Lemma wf_quiet s s' : wf s → quiet s s' → wf s'.
Proof.
  intros W Q. pose proof (quiet_children_eq _ _ Q) as Ec.
  destruct W as [Wa Wc Wn Wr Wd Wl Wo Wk], Q as [A C N D].
  split; rewrite ?Ec, ?A, ?C, ?D; try done.
  - intros l xs H. specialize (Wa l xs H). lia.
  - intros n H. specialize (Wr n H). lia.
  - intros n H. specialize (Wd n H). lia.
Qed.

Lemma children_rebuilt s rm :
  children (rebuilt s rm) = freshNodes (nextRef s) (rootKinds (host s) rm).
Proof. unfold children, rebuilt. simpl. by rewrite lookup_insert_eq. Qed.

Lemma trace_rebuilt s rm :
  trace (rebuilt s rm) =
    trace s ++ [EvEnter (MgetChildren None)] ++ (EvDispose <$> children s)
      ++ (EvNew <$> freshNodes (nextRef s) (rootKinds (host s) rm)).
Proof. reflexivity. Qed.

Lemma disposed_rebuilt s rm :
  disposed (trace (rebuilt s rm)) = disposed (trace s) ++ children s.
Proof.
  rewrite trace_rebuilt, !disposed_app, disposed_dispose, disposed_new.
  by rewrite app_nil_r.
Qed.

Lemma NoDup_refs (ns : list TreeNode) : NoDup (ref <$> ns) → NoDup ns.
Proof. apply NoDup_fmap_1. Qed.

Lemma wf_rebuilt s rm : wf s → wf (rebuilt s rm).
Proof.
  intros [Wa Wc Wn Wr Wd Wl Wo Wk].
  split; rewrite ?children_rebuilt, ?disposed_rebuilt.
  - intros l xs. unfold rebuilt. simpl. rewrite length_freshNodes.
    destruct (decide (nextRef s + length (rootKinds (host s) rm) = l)) as [<-|Hne].
    + lia.
    + rewrite lookup_insert_ne by done. intros H%Wa. lia.
  - unfold rebuilt. simpl. rewrite lookup_insert_eq. by eexists.
  - apply freshNodes_NoDup.
  - intros n H%freshNodes_refs. unfold rebuilt. simpl.
    rewrite length_freshNodes. lia.
  - intros n [H%Wd|H%Wr]%elem_of_app; unfold rebuilt; simpl; lia.
  - intros n H%freshNodes_refs [H'%Wd|H'%Wr]%elem_of_app; lia.
  - apply NoDup_app. split; [done|]. split; [|by apply NoDup_refs].
    intros n H1 H2. by apply (Wl n).
  - intros n H. apply (list_elem_of_fmap_2 kind) in H.
    rewrite freshNodes_kinds in H. unfold rootKinds in H. case_bool_decide.
    + destruct (folderManagers rm); [by apply elem_of_nil in H|].
      by apply list_elem_of_fmap in H as (c & -> & _).
    + by apply list_elem_of_fmap in H as (c & -> & _).
Qed.

Lemma wf_constructor h memento : wf (constructor h memento).
Proof.
  split; unfold children; simpl.
  - intros l xs [<- _]%lookup_singleton_Some. lia.
  - by eexists.
  - rewrite lookup_singleton_eq. constructor.
  - rewrite lookup_singleton_eq. by intros n ?%elem_of_nil.
  - by intros n ?%elem_of_nil.
  - rewrite lookup_singleton_eq. by intros n ?%elem_of_nil.
  - constructor.
  - rewrite lookup_singleton_eq. by intros n ?%elem_of_nil.
Qed.

(** Every call of [getChildren] is quiet, unless it is the root request
    that rebuilds the root set. *)
Lemma getChildren_cases element s :
  quiet s (getChildren element s).2 ∨
  (element = None ∧
   ∃ rm, _reposManager s = Some rm ∧ folderManagers rm ≠ [] ∧
         state rm ≠ Initializing ∧ noGitHubRemotes rm = false ∧
         getChildren None s =
           (Ok (freshNodes (nextRef s) (rootKinds (host s) rm)), rebuilt s rm)).
Proof.
  destruct (_reposManager s) as [rm|] eqn:E.
  2:{ left. rewrite getChildren_no_manager by done. apply quiet_entered. }
  destruct (decide (folderManagers rm = [])) as [F|F].
  { left. rewrite (getChildren_no_folders _ _ rm) by done. apply quiet_entered. }
  destruct (decide (state rm = Initializing)) as [I|I].
  { left. rewrite (getChildren_initializing _ _ rm) by done. simpl.
    etransitivity; [apply (quiet_entered element)|]. by split. }
  destruct (noGitHubRemotes rm) eqn:G.
  { left. rewrite (getChildren_gate _ _ rm) by done.
    etransitivity; [apply (quiet_entered element)|].
    destruct (needsRemotes (entered element s)) as [r s'] eqn:R.
    exact (quiet_needsRemotes _ _ _ R). }
  destruct element as [e|].
  - left. destruct (noNativeRemotes rm) eqn:N.
    + rewrite (getChildren_empty _ _ rm) by done. simpl.
      split; simpl; [done|done|lia|]. by rewrite disposed_app, app_nil_r.
    + rewrite (getChildren_delegate _ _ rm) by done. simpl.
      split; simpl; [done|done|lia|]. by rewrite disposed_app, app_nil_r.
  - right. split; [done|]. exists rm. repeat split; try done.
    by apply getChildren_root.
Qed.

Lemma wf_getChildren element s : wf s → wf (getChildren element s).2.
Proof.
  intros W. destruct (getChildren_cases element s) as [Q|(-> & rm & _ & _ & _ & _ & E)].
  - by apply (wf_quiet s).
  - rewrite E. by apply wf_rebuilt.
Qed.

Lemma getChildren_total element s : ∃ r, (getChildren element s).1 = Ok r.
Proof.
  destruct (_reposManager s) as [rm|] eqn:E.
  2:{ rewrite getChildren_no_manager by done. by eexists. }
  destruct (decide (folderManagers rm = [])) as [F|F].
  { rewrite (getChildren_no_folders _ _ rm) by done. by eexists. }
  destruct (decide (state rm = Initializing)) as [I|I].
  { rewrite (getChildren_initializing _ _ rm) by done. by eexists. }
  destruct (noGitHubRemotes rm) eqn:G.
  { rewrite (getChildren_gate _ _ rm), needsRemotes_run by done. by eexists. }
  destruct element as [e|].
  - destruct (noNativeRemotes rm) eqn:N.
    + rewrite (getChildren_empty _ _ rm) by done. by eexists.
    + rewrite (getChildren_delegate _ _ rm) by done. by eexists.
  - rewrite (getChildren_root _ rm) by done. by eexists.
Qed.

(** ** The search of [expandPullRequest] *)

Lemma expandLoop_run pullRequest cs s :
  expandLoop pullRequest cs s =
    (Ok tt,
     with_trace (trace s ++ ((λ c, EvExpandPullRequest c pullRequest)
                               <$> asked (host s) pullRequest cs)) s).
Proof.
  revert s. induction cs as [|c cs IH]; intros s.
  - simpl. unfold ret. by rewrite app_nil_r, with_trace_id.
  - unfold asked in *. rewrite filter_cons. simpl. unfold delegable.
    destruct (kind c) as [uri|type id|?| |] eqn:K; simpl;
      try (rewrite IH; reflexivity).
    + unfold bind, emit, modify, gets. simpl.
      destruct (nodeExpandPullRequest (host s) c pullRequest) eqn:F; simpl.
      * by unfold ret.
      * rewrite IH. simpl. by rewrite <- app_assoc.
    + destruct (decide (type = All)) as [->|T].
      * simpl. unfold bind, emit, modify, gets. simpl.
        destruct (nodeExpandPullRequest (host s) c pullRequest) eqn:F; simpl.
        -- by unfold ret.
        -- rewrite IH. simpl. by rewrite <- app_assoc.
      * rewrite bool_decide_eq_false_2 by done. simpl. by rewrite IH.
Qed.

Lemma expandPullRequest_run pullRequest s :
  expandPullRequest pullRequest s =
    (let s1 := if bool_decide (length (children s) = 0)
               then (getChildren None s).2 else s in
     expandLoop pullRequest (children s1) s1).
Proof.
  unfold expandPullRequest. unfold bind at 1, gets at 1. unfold bind at 1.
  case_bool_decide as L.
  - unfold bind at 1. destruct (getChildren_total None s) as [r Hr].
    destruct (getChildren None s) as [r' s1]. simpl in Hr. subst r'.
    by unfold ret, bind, gets.
  - by unfold ret, bind, gets.
Qed.

(** ** Every operation keeps the invariant *)

Lemma respects_step {A} (R : relation State) (c : M A) :
  (∀ s, R s (c s).2) → respects R c.
Proof. intros H s r s' E. specialize (H s). by rewrite E in H. Qed.

Ltac respects_go prim :=
  repeat first
    [ match goal with |- PreOrder _ => apply _ end
    | apply respects_ret | apply respects_gets | apply respects_throw
    | apply respects_bind; [ | | intros ?]
    | apply respects_forEach; [ | intros ?]
    | apply respects_mapM; [ | intros ?]
    | prim
    | progress cbv zeta
    | match goal with
      | |- respects _ (match ?x with _ => _ end) => destruct x
      end ].

Ltac quiet_prim :=
  first
    [ apply quiet_emit; intros [? [=]]
    | apply quiet_newNode
    | apply respects_modify; intros ?; split; simpl; (done || lia) ].

Lemma quiet_expandLoop pullRequest cs : respects quiet (expandLoop pullRequest cs).
Proof.
  intros s r s'. rewrite expandLoop_run. intros [= <- <-].
  split; simpl; [done|done|lia|]. rewrite disposed_app.
  rewrite disposed_fmap_other; [by rewrite app_nil_r|]. by intros c [? [=]].
Qed.

Lemma wf_step s o : wf s → wf (step s o).
Proof.
  intros W. unfold step.
  assert (Hq : ∀ c : M unit, respects quiet c → wf (c s).2).
  { intros c Hc. destruct (c s) as [r s'] eqn:E. apply (wf_quiet s); [done|].
    exact (Hc _ _ _ E). }
  destruct o; unfold exec.
  - apply Hq. unfold initialize, push, refresh. respects_go quiet_prim.
  - unfold discard, bind.
    pose proof (wf_getChildren element s W) as W'.
    by destruct (getChildren element s) as [[r|m] s'].
  - apply Hq. unfold discard, cachedChildren. respects_go quiet_prim.
  - rewrite expandPullRequest_run. cbv zeta.
    set (s1 := if bool_decide _ then _ else s).
    assert (W1 : wf s1).
    { unfold s1. case_bool_decide; [by apply wf_getChildren | done]. }
    destruct (expandLoop pullRequest (children s1) s1) as [r s2] eqn:E.
    apply (wf_quiet s1); [done|]. exact (quiet_expandLoop _ _ _ _ _ E).
  - apply Hq. unfold refresh. respects_go quiet_prim.
  - apply Hq. unfold refreshList. respects_go quiet_prim.
  - apply Hq. unfold loadMore. respects_go quiet_prim.
  - apply Hq. unfold onDidChangeConfiguration, refresh. respects_go quiet_prim.
  - apply Hq. unfold onDidChangeCheckboxState. respects_go quiet_prim.
  - apply Hq. unfold onDidExpandElement, _updateExpandedQueries.
    respects_go quiet_prim.
  - apply Hq. unfold onDidCollapseElement, _updateExpandedQueries.
    respects_go quiet_prim.
  - apply Hq. unfold dispose. respects_go quiet_prim.
  - apply Hq. unfold world. respects_go quiet_prim.
Qed.

Lemma wf_run ops s : wf s → wf (run ops s).
Proof.
  revert s. induction ops as [|o ops IH]; intros s W; [done|].
  simpl. apply IH. by apply wf_step.
Qed.

Lemma reachable_wf s : reachable s → wf s.
Proof. intros (h & memento & ops & ->). apply wf_run, wf_constructor. Qed.

Lemma reachable_intro h memento ops : reachable (run ops (constructor h memento)).
Proof. by exists h, memento, ops. Qed.

Lemma reachable_step s o : reachable s → reachable (step s o).
Proof.
  intros (h & memento & ops & ->). exists h, memento, (ops ++ [o]).
  unfold run. by rewrite foldl_app.
Qed.

(** The gate always leaves its entry in the trace, so its absence from a
    trace means it was not invoked. *)
Lemma needsRemotes_enters s :
  EvEnter MneedsRemotes ∈ since s (needsRemotes s).2.
Proof.
  rewrite needsRemotes_run. simpl. erewrite since_extend by reflexivity.
  apply elem_of_cons. by left.
Qed.

Lemma decision_entered element s : Gate.decision (entered element s) = Gate.decision s.
Proof. reflexivity. Qed.

Lemma getChildren_gate_run element s rm :
  _reposManager s = Some rm → folderManagers rm ≠ [] → state rm ≠ Initializing →
  noGitHubRemotes rm = true →
  getChildren element s =
    (let nodes := freshNodes (nextRef s) (PRCategoryActionNode <$> Gate.decision s) in
     (Ok nodes,
      with_trace (trace s ++ [EvEnter (MgetChildren element); EvEnter MneedsRemotes]
                    ++ (EvNew <$> nodes))
        (with_nextRef (nextRef s + length nodes) s))).
Proof.
  intros E F I G. rewrite (getChildren_gate element s rm E F I G), needsRemotes_run.
  rewrite decision_entered. cbv zeta. unfold entered. state_eq.
Qed.

(** What a root request returns is never the [Empty] placeholder. *)
Lemma root_request_never_empty s nodes n :
  (getChildren None s).1 = Ok nodes → n ∈ nodes →
  kind n ≠ PRCategoryActionNode Empty.
Proof.
  destruct (_reposManager s) as [rm|] eqn:E.
  2:{ rewrite getChildren_no_manager by done. by intros [= <-] ?%elem_of_nil. }
  destruct (decide (folderManagers rm = [])) as [F|F].
  { rewrite (getChildren_no_folders _ _ rm) by done. by intros [= <-] ?%elem_of_nil. }
  destruct (decide (state rm = Initializing)) as [I|I].
  { rewrite (getChildren_initializing _ _ rm) by done.
    by intros [= <-] ?%elem_of_nil. }
  assert (Hk : ∀ base ks, n ∈ freshNodes base ks → kind n ∈ ks).
  { intros base ks H. rewrite <- (freshNodes_kinds base ks).
    by apply list_elem_of_fmap_2. }
  destruct (noGitHubRemotes rm) eqn:G.
  - rewrite (getChildren_gate_run _ _ rm) by done. intros [= <-] H%Hk.
    apply list_elem_of_fmap in H as (a & -> & H). intros [= ->].
    unfold Gate.decision, Gate.policy in H.
    destruct (decide _); [by apply elem_of_nil in H|].
    apply elem_of_app in H as [H|H].
    + destruct (Gate.allowlist s);
        repeat (apply elem_of_cons in H as [H|H]; [done|]); by apply elem_of_nil in H.
    + destruct (_ && _);
        repeat (apply elem_of_cons in H as [H|H]; [done|]); by apply elem_of_nil in H.
  - rewrite (getChildren_root _ rm) by done. intros [= <-] H%Hk.
    unfold rootKinds in H. case_bool_decide.
    + destruct (folderManagers rm); [by apply elem_of_nil in H|].
      apply list_elem_of_fmap in H as (c & -> & _). done.
    + apply list_elem_of_fmap in H as (c & -> & _). done.
Qed.

Lemma occurrences_dispose n t :
  occurrences (EvDispose n) t = length (filter (λ x, x = n) (disposed t)).
Proof.
  induction t as [|e t IH]; [done|]. unfold occurrences in *.
  destruct (decide (e = EvDispose n)) as [->|Hne].
  - rewrite filter_cons_True by done.
    change (disposed (EvDispose n :: t)) with (n :: disposed t).
    rewrite filter_cons_True by done. simpl. by f_equal.
  - rewrite filter_cons_False by done.
    destruct e as [| |n0| | | | | | |]; try exact IH.
    change (disposed (EvDispose n0 :: t)) with (n0 :: disposed t).
    rewrite filter_cons_False by congruence. exact IH.
Qed.

Lemma filter_eq_once {A} `{EqDecision A} (x : A) (l : list A) :
  NoDup l → x ∈ l → length (filter (λ y, y = x) l) = 1.
Proof.
  induction 1 as [|y l Hy Hl IH]; [by intros ?%elem_of_nil|].
  rewrite filter_cons. intros [->|Hx]%elem_of_cons.
  - rewrite decide_True by done. simpl. f_equal.
    apply filter_nil_Forall, Forall_forall. by intros z Hz ->.
  - rewrite decide_False by (by intros ->). by apply IH.
Qed.

(** ** [_initialized] is never reset *)

#[global] Instance initialized_kept_preorder : PreOrder initialized_kept.
Proof. split; unfold initialized_kept; [by intros s | intros s1 s2 s3; auto]. Qed.

Ltac kept_prim :=
  match goal with
  | |- respects _ (emit _) => idtac
  | |- respects _ (modify _) => idtac
  | |- respects _ (newNode _) => idtac
  | |- respects _ (newArray _) => idtac
  end;
  apply respects_step; intros ?; unfold initialized_kept; simpl; done.

Lemma kept_expandLoop pullRequest cs :
  respects initialized_kept (expandLoop pullRequest cs).
Proof.
  apply respects_step. intros s. rewrite expandLoop_run.
  unfold initialized_kept. by simpl.
Qed.

Lemma kept_exec o : respects initialized_kept (exec o).
Proof.
  destruct o; unfold exec, discard, initialize, getChildren, needsRemotes,
    getCategoryTreeNodes, cachedChildren, expandPullRequest, refreshList,
    loadMore, onDidChangeConfiguration, onDidChangeCheckboxState,
    onDidExpandElement, onDidCollapseElement, _updateExpandedQueries, dispose,
    world, push, refresh;
    respects_go ltac:(first [apply kept_expandLoop | kept_prim]).
Qed.

Lemma initialized_run ops s : _initialized s = true → _initialized (run ops s) = true.
Proof.
  revert s. induction ops as [|o ops IH]; intros s H; [done|].
  simpl. apply IH. unfold step. destruct (exec o s) as [r s'] eqn:E.
  exact (kept_exec o _ _ _ E H).
Qed.

Lemma initialize_run reposManager reviewModels store s :
  _initialized s = false →
  initialize reposManager reviewModels store s =
    (Ok tt,
     with_trace (trace s ++ [EvFire None])
       (with_disposables
          (_disposables s ++ [StateListener]
             ++ ((λ manager, RepositoriesListener (rootUri manager))
                   <$> folderManagers reposManager)
             ++ (LocalFileChangesListener <$> reviewModels)
             ++ [NotificationProviderD; ConfigurationListener QUERIES])
          (with_notificationProvider
             (Some (NewNotificationProvider store reposManager))
             (with_reposManager (Some reposManager)
                (with_initialized true s))))).
Proof.
  intros H. destruct s as [ds ch rm ini np ar nx ws lc tr h].
  cbn in H. subst ini.
  unfold initialize, bind, gets, modify, push, refresh, emit. cbn.
  by rewrite <- !app_assoc.
Qed.

(** ** The persisted expansion set *)

Lemma Set_add_elem x y xs : y ∈ Set_add x xs ↔ y = x ∨ y ∈ xs.
Proof.
  unfold Set_add. destruct (decide (x ∈ xs)) as [H|H].
  - split; [by right|]. by intros [->|?].
  - rewrite elem_of_app, list_elem_of_singleton. tauto.
Qed.

Lemma Set_add_NoDup x xs : NoDup xs → NoDup (Set_add x xs).
Proof.
  intros H. unfold Set_add. destruct (decide (x ∈ xs)) as [Hx|Hx]; [done|].
  apply NoDup_app. split; [done|]. split; [|apply NoDup_singleton].
  by intros y Hy ->%list_elem_of_singleton.
Qed.

Lemma Set_fold_elem y xs acc :
  y ∈ foldl (λ acc x, Set_add x acc) acc xs ↔ y ∈ acc ∨ y ∈ xs.
Proof.
  revert acc. induction xs as [|x xs IH]; intros acc; simpl.
  - rewrite elem_of_nil. tauto.
  - rewrite IH, Set_add_elem, elem_of_cons. tauto.
Qed.

Lemma Set_fold_NoDup xs acc :
  NoDup acc → NoDup (foldl (λ acc x, Set_add x acc) acc xs).
Proof.
  revert acc. induction xs as [|x xs IH]; intros acc H; simpl; [done|].
  by apply IH, Set_add_NoDup.
Qed.

Lemma Set_fold_id xs acc :
  NoDup (acc ++ xs) → foldl (λ acc x, Set_add x acc) acc xs = acc ++ xs.
Proof.
  revert acc. induction xs as [|x xs IH]; intros acc H; simpl.
  - by rewrite app_nil_r.
  - assert (Hx : x ∉ acc).
    { apply NoDup_app in H as (_ & H & _). intros Hx. apply (H x Hx), elem_of_cons.
      by left. }
    unfold Set_add at 2. rewrite decide_False by done.
    rewrite IH; rewrite <- app_assoc; done.
Qed.

Lemma Set_new_elem y xs : y ∈ Set_new xs ↔ y ∈ xs.
Proof. unfold Set_new. rewrite Set_fold_elem, elem_of_nil. tauto. Qed.

Lemma Set_new_NoDup xs : NoDup (Set_new xs).
Proof. apply Set_fold_NoDup. constructor. Qed.

Lemma Set_new_id xs : NoDup xs → Set_new xs = xs.
Proof. intros H. unfold Set_new. by rewrite Set_fold_id. Qed.

Lemma Set_delete_elem x y xs : y ∈ Set_delete x xs ↔ y ≠ x ∧ y ∈ xs.
Proof. unfold Set_delete. by rewrite list_elem_of_filter. Qed.

Lemma Set_delete_absent x xs : x ∉ xs → Set_delete x xs = xs.
Proof.
  intros H. unfold Set_delete. induction xs as [|y xs IH]; [done|].
  rewrite filter_cons. apply not_elem_of_cons in H as [H1 H2].
  rewrite decide_True by done. by rewrite IH.
Qed.

Lemma Set_delete_add x xs : x ∉ xs → Set_delete x (Set_add x xs) = xs.
Proof.
  intros H. unfold Set_add. rewrite decide_False by done.
  unfold Set_delete. rewrite filter_app, filter_cons, decide_False by (by intros ?).
  rewrite filter_nil, app_nil_r. by apply Set_delete_absent.
Qed.

Lemma updateExpandedQueries_run element type id isExpanded s :
  kind element = CategoryTreeNode type id →
  _updateExpandedQueries element isExpanded s =
    (Ok tt,
     with_workspaceState
       (Some (if isExpanded
              then Set_add id (Set_new (default [] (workspaceState s)))
              else Set_delete id (Set_new (default [] (workspaceState s))))) s).
Proof. intros K. unfold _updateExpandedQueries. by rewrite K. Qed.

Lemma persisted_expand Q type id s :
  kind Q = CategoryTreeNode type id →
  persisted (onDidExpandElement Q s).2 = {[id]} ∪ persisted s.
Proof.
  intros K. unfold onDidExpandElement. rewrite (updateExpandedQueries_run _ _ _ _ _ K).
  unfold persisted. simpl. apply set_eq. intros y.
  rewrite elem_of_union, !elem_of_list_to_set, Set_add_elem, Set_new_elem.
  by rewrite elem_of_singleton.
Qed.

Lemma persisted_collapse Q type id s :
  kind Q = CategoryTreeNode type id →
  persisted (onDidCollapseElement Q s).2 = persisted s ∖ {[id]}.
Proof.
  intros K. unfold onDidCollapseElement.
  rewrite (updateExpandedQueries_run _ _ _ _ _ K).
  unfold persisted. simpl. apply set_eq. intros y.
  rewrite elem_of_difference, !elem_of_list_to_set, Set_delete_elem, Set_new_elem.
  rewrite elem_of_singleton. tauto.
Qed.

(** ** Root fetches in a trace *)

Lemma inner_fmap {A} (f : A → Event) xs : (∀ x, inner (f x)) → Forall inner (f <$> xs).
Proof. intros H. apply Forall_fmap, Forall_forall. intros x _. apply H. Qed.

Lemma getChildren_since element s :
  ∃ t, trace (getChildren element s).2
       = trace s ++ EvEnter (MgetChildren element) :: t
       ∧ Forall inner t
       ∧ host (getChildren element s).2 = host s.
Proof.
  destruct (_reposManager s) as [rm|] eqn:E.
  2:{ rewrite getChildren_no_manager by done. exists []; by repeat split. }
  destruct (decide (folderManagers rm = [])) as [F|F].
  { rewrite (getChildren_no_folders _ _ rm) by done. exists []; by repeat split. }
  destruct (decide (state rm = Initializing)) as [I|I].
  { rewrite (getChildren_initializing _ _ rm) by done. exists []; by repeat split. }
  destruct (noGitHubRemotes rm) eqn:G.
  { rewrite (getChildren_gate_run _ _ rm) by done. cbv zeta.
    eexists (EvEnter MneedsRemotes :: (EvNew <$> _)). split; [reflexivity|].
    split; [|reflexivity]. constructor; [done|]. by apply inner_fmap. }
  destruct element as [e|].
  - destruct (noNativeRemotes rm) eqn:N.
    + rewrite (getChildren_empty _ _ rm) by done. cbv zeta.
      eexists [_]. split; [reflexivity|]. split; [|reflexivity].
      by repeat constructor.
    + rewrite (getChildren_delegate _ _ rm) by done.
      eexists [_]. split; [reflexivity|]. split; [|reflexivity].
      by repeat constructor.
  - rewrite (getChildren_root _ rm) by done.
    eexists. split; [apply trace_rebuilt|]. split; [|reflexivity].
    apply Forall_app. split; by apply inner_fmap.
Qed.

Lemma fetches_app t u : fetches (t ++ u) = fetches t + fetches u.
Proof. unfold fetches. by rewrite filter_app, length_app. Qed.

Lemma fetches_inner t : Forall inner t → fetches t = 0.
Proof.
  intros H. unfold fetches. apply filter_nil_Forall.
  eapply Forall_impl; [exact H|]. intros e [He _] X. by rewrite He in X.
Qed.

Lemma fetches_asks {A} (f : A → TreeNode) pullRequest xs :
  fetches ((λ c, EvExpandPullRequest (f c) pullRequest) <$> xs) = 0.
Proof.
  unfold fetches. apply filter_nil_Forall, Forall_fmap, Forall_forall.
  intros x _ X. exact X.
Qed.

Lemma uptoFirst_none {A} (p : A → bool) xs :
  Forall (λ x, p x = false) xs → uptoFirst p xs = xs.
Proof.
  induction 1 as [|x xs Hx _ IH]; [done|]. simpl. by rewrite Hx, IH.
Qed.

Lemma uptoFirst_first {A} (p : A → bool) pre m post :
  Forall (λ x, p x = false) pre → p m = true →
  uptoFirst p (pre ++ m :: post) = pre ++ [m].
Proof.
  intros Hpre Hm. induction Hpre as [|x xs Hx _ IH]; simpl.
  - by rewrite Hm.
  - by rewrite Hx, IH.
Qed.

(** ** Traces that keep a class of events out *)

#[global] Instance keeps_preorder P : PreOrder (keeps P).
Proof.
  split.
  - intros s. exists []. by rewrite app_nil_r.
  - intros s1 s2 s3 (t1 & E1 & F1) (t2 & E2 & F2). exists (t1 ++ t2).
    rewrite E2, E1, <- app_assoc. split; [done|]. by apply Forall_app.
Qed.

Lemma keeps_since P s s' :
  keeps P s s' → Forall (λ e, P e = false) (since s s').
Proof. intros (t & E & F). by rewrite (since_extend s s' t E). Qed.

Lemma keeps_filter P s s' :
  keeps P s s' → filter (λ e, P e) (trace s') = filter (λ e, P e) (trace s).
Proof.
  intros (t & E & F). rewrite E, filter_app.
  assert (N : filter (λ e, P e) t = []).
  { clear E. induction F as [|e t He _ IH]; [done|].
    rewrite filter_cons_False; [done|]. rewrite He. by intros []. }
  by rewrite N, app_nil_r.
Qed.

Lemma keeps_emit P e : P e = false → respects (keeps P) (emit e).
Proof. intros H s r s' [= <- <-]. exists [e]. split; [done|]. by constructor. Qed.

Lemma keeps_newNode P k :
  (∀ r, P (EvNew {| ref := r; kind := k |}) = false) →
  respects (keeps P) (newNode k).
Proof.
  intros H s r s' [= <- <-]. eexists [_]. split; [done|]. by constructor.
Qed.

Lemma keeps_same P (c : M unit) :
  (∀ s, trace (c s).2 = trace s) → respects (keeps P) c.
Proof.
  intros H. apply respects_step. intros s. exists []. by rewrite H, app_nil_r.
Qed.

Lemma keeps_newArray P xs : respects (keeps P) (newArray xs).
Proof. intros s r s' [= <- <-]. exists []. by rewrite app_nil_r. Qed.

Lemma keeps_expandLoop P pullRequest cs :
  (∀ c, P (EvExpandPullRequest c pullRequest) = false) →
  respects (keeps P) (expandLoop pullRequest cs).
Proof.
  intros H s r s'. rewrite expandLoop_run. intros [= <- <-].
  eexists. split; [reflexivity|]. apply Forall_fmap, Forall_forall.
  intros c _. apply H.
Qed.

Ltac keeps_prim :=
  first
    [ apply keeps_emit; reflexivity
    | apply keeps_newNode; intros ?; reflexivity
    | apply keeps_newArray
    | apply keeps_expandLoop; intros ?; reflexivity
    | match goal with |- respects _ (modify _) => idtac end;
      apply keeps_same; intros ?; reflexivity ].

Lemma silent_getChildren element : respects (keeps isFire) (getChildren element).
Proof.
  unfold getChildren, needsRemotes, getCategoryTreeNodes.
  respects_go keeps_prim.
Qed.

Lemma silent_expandPullRequest pullRequest :
  respects (keeps isFire) (expandPullRequest pullRequest).
Proof.
  unfold expandPullRequest. respects_go ltac:(first [apply silent_getChildren | keeps_prim]).
Qed.

(** ** When [getChildren] rebuilds *)

Lemma rebuilds_true element s :
  rebuilds element s = true →
  element = None
  ∧ ∃ rm, _reposManager s = Some rm ∧ folderManagers rm ≠ []
          ∧ state rm ≠ Initializing ∧ noGitHubRemotes rm = false
          ∧ getChildren None s
            = (Ok (freshNodes (nextRef s) (rootKinds (host s) rm)), rebuilt s rm).
Proof.
  unfold rebuilds. destruct element as [e|]; [done|].
  destruct (_reposManager s) as [rm|] eqn:E; [|done].
  intros [[F%negb_true_iff I%negb_true_iff]%andb_true_iff G%negb_true_iff]%andb_true_iff.
  apply bool_decide_eq_false in F, I.
  assert (F' : folderManagers rm ≠ []) by (by intros X; rewrite X in F).
  split; [done|]. exists rm. repeat split; try done.
  by apply getChildren_root.
Qed.

Lemma calm_entered element s : calm s (entered element s).
Proof.
  split; [apply quiet_entered|]. eexists [_]. split; [reflexivity|]. by constructor.
Qed.

#[global] Instance calm_preorder : PreOrder calm.
Proof.
  split.
  - intros s. split; reflexivity.
  - intros s1 s2 s3 [Q1 K1] [Q2 K2]. split; etransitivity; eassumption.
Qed.

Lemma calm_needsRemotes : respects calm needsRemotes.
Proof.
  intros s r s' H. split; [exact (quiet_needsRemotes _ _ _ H)|].
  revert H. rewrite needsRemotes_run. intros [= <- <-].
  eexists (_ :: _). split; [reflexivity|]. constructor; [done|].
  apply Forall_fmap, Forall_forall. intros n Hn. simpl.
  apply (list_elem_of_fmap_2 kind) in Hn. rewrite freshNodes_kinds in Hn.
  by apply list_elem_of_fmap in Hn as (a & -> & _).
Qed.

(** A call of [getChildren] that does not rebuild is calm. *)
Lemma rebuilds_false element s :
  rebuilds element s = false → calm s (getChildren element s).2.
Proof.
  unfold rebuilds. intros H.
  destruct (_reposManager s) as [rm|] eqn:E.
  2:{ rewrite getChildren_no_manager by done. apply calm_entered. }
  destruct (decide (folderManagers rm = [])) as [F|F].
  { rewrite (getChildren_no_folders _ _ rm) by done. apply calm_entered. }
  destruct (decide (state rm = Initializing)) as [I|I].
  { rewrite (getChildren_initializing _ _ rm) by done. simpl.
    etransitivity; [apply (calm_entered element)|].
    split; [by split|]. exists []. by rewrite app_nil_r. }
  destruct (noGitHubRemotes rm) eqn:G.
  { rewrite (getChildren_gate _ _ rm) by done.
    etransitivity; [apply (calm_entered element)|].
    destruct (needsRemotes (entered element s)) as [r s'] eqn:R.
    exact (calm_needsRemotes _ _ _ R). }
  destruct element as [e|].
  - destruct (noNativeRemotes rm) eqn:N.
    + rewrite (getChildren_empty _ _ rm) by done. simpl. split.
      * split; simpl; [done|done|lia|]. by rewrite disposed_app, app_nil_r.
      * eexists [_; _]. split; [reflexivity|]. by repeat constructor.
    + rewrite (getChildren_delegate _ _ rm) by done. simpl. split.
      * split; simpl; [done|done|lia|]. by rewrite disposed_app, app_nil_r.
      * eexists [_; _]. split; [reflexivity|]. by repeat constructor.
  - exfalso. rewrite (length_zero_false _ F), (bool_decide_eq_false_2 _ I) in H.
    done.
Qed.

Lemma rootKinds_isRoot h rm k : k ∈ rootKinds h rm → isRoot k = true.
Proof.
  unfold rootKinds. case_bool_decide.
  - destruct (folderManagers rm); [by intros ?%elem_of_nil|].
    by intros (c & -> & _)%list_elem_of_fmap.
  - by intros (c & -> & _)%list_elem_of_fmap.
Qed.

Lemma filter_built_new (ns : list TreeNode) :
  (∀ n, n ∈ ns → isRoot (kind n) = true) →
  filter (λ e, isBuilt e) (EvNew <$> ns) = EvNew <$> ns.
Proof.
  induction ns as [|n ns IH]; intros H; [done|].
  rewrite fmap_cons, filter_cons_True.
  - f_equal. apply IH. intros m Hm. apply H, elem_of_cons. by right.
  - simpl. rewrite H; [done|]. apply elem_of_cons. by left.
Qed.

Lemma filter_built_dispose (ns : list TreeNode) : filter (λ e, isBuilt e) (EvDispose <$> ns) = [].
Proof.
  induction ns as [|n ns IH]; [done|].
  rewrite fmap_cons, filter_cons_False; [done|]. by intros [].
Qed.

Lemma leakfree_calm s s' : leakfree s → calm s s' → leakfree s'.
Proof.
  unfold leakfree. intros L [Q K].
  rewrite (keeps_filter _ _ _ K), (quiet_children_eq _ _ Q).
  by rewrite (quiet_disposed _ _ Q).
Qed.

Lemma leakfree_rebuilt s rm : leakfree s → leakfree (rebuilt s rm).
Proof.
  unfold leakfree. intros L.
  rewrite children_rebuilt, disposed_rebuilt, trace_rebuilt.
  rewrite !filter_app, L, filter_built_dispose, filter_built_new.
  - rewrite filter_cons_False by (by intros []). rewrite filter_nil. simpl.
    by rewrite !fmap_app, <- app_assoc.
  - intros n Hn. apply (rootKinds_isRoot (host s) rm).
    apply (list_elem_of_fmap_2 kind) in Hn. by rewrite freshNodes_kinds in Hn.
Qed.

Lemma leakfree_getChildren element s :
  leakfree s → leakfree (getChildren element s).2.
Proof.
  intros L. destruct (rebuilds element s) eqn:R.
  - apply rebuilds_true in R as (-> & rm & _ & _ & _ & _ & E).
    rewrite E. by apply leakfree_rebuilt.
  - apply (leakfree_calm s); [done|]. by apply rebuilds_false.
Qed.

Ltac calm_prim :=
  first
    [ match goal with |- respects calm (emit _) => idtac end;
      apply respects_step; intros ?; split;
        [ split; simpl; [done|done|lia|]; by rewrite disposed_app, app_nil_r
        | eexists [_]; split; [reflexivity|]; by constructor ]
    | match goal with |- respects calm (modify _) => idtac end;
      apply respects_step; intros ?; split;
        [ split; simpl; (done || lia) | exists []; simpl; by rewrite app_nil_r ] ].

Lemma calm_expandLoop pullRequest cs : respects calm (expandLoop pullRequest cs).
Proof.
  intros s r s' H. split; [exact (quiet_expandLoop _ _ _ _ _ H)|].
  by apply (keeps_expandLoop isBuilt pullRequest cs) in H.
Qed.

Lemma leakfree_step s o : leakfree s → leakfree (step s o).
Proof.
  intros L. unfold step.
  assert (Hq : ∀ c : M unit, respects calm c → leakfree (c s).2).
  { intros c Hc. destruct (c s) as [r s'] eqn:E. apply (leakfree_calm s); [done|].
    exact (Hc _ _ _ E). }
  destruct o; unfold exec.
  - apply Hq. unfold initialize, push, refresh. respects_go calm_prim.
  - unfold discard, bind.
    pose proof (leakfree_getChildren element s L) as L'.
    by destruct (getChildren element s) as [[r|m] s'].
  - apply Hq. unfold discard, cachedChildren. respects_go calm_prim.
  - rewrite expandPullRequest_run. cbv zeta.
    set (s1 := if bool_decide _ then _ else s).
    assert (L1 : leakfree s1).
    { unfold s1. case_bool_decide; [by apply leakfree_getChildren | done]. }
    destruct (expandLoop pullRequest (children s1) s1) as [r s2] eqn:E.
    apply (leakfree_calm s1); [done|]. exact (calm_expandLoop _ _ _ _ _ E).
  - apply Hq. unfold refresh. respects_go calm_prim.
  - apply Hq. unfold refreshList. respects_go calm_prim.
  - apply Hq. unfold loadMore. respects_go calm_prim.
  - apply Hq. unfold onDidChangeConfiguration, refresh. respects_go calm_prim.
  - apply Hq. unfold onDidChangeCheckboxState. respects_go calm_prim.
  - apply Hq. unfold onDidExpandElement, _updateExpandedQueries.
    respects_go calm_prim.
  - apply Hq. unfold onDidCollapseElement, _updateExpandedQueries.
    respects_go calm_prim.
  - apply Hq. unfold dispose. respects_go calm_prim.
  - apply Hq. unfold world. respects_go calm_prim.
Qed.

Lemma leakfree_run ops s : leakfree s → leakfree (run ops s).
Proof.
  revert s. induction ops as [|o ops IH]; intros s L; [done|].
  simpl. apply IH. by apply leakfree_step.
Qed.

Lemma leakfree_constructor h memento : leakfree (constructor h memento).
Proof. unfold leakfree, children. simpl. by rewrite lookup_singleton_eq. Qed.

(** ** The wiring and the loading key over a history *)

#[global] Instance fixed_preorder : PreOrder fixed.
Proof.
  split.
  - intros s. by repeat split.
  - intros s1 s2 s3 (D1 & I1 & N1 & R1) (D2 & I2 & N2 & R2).
    repeat split; try congruence; tauto.
Qed.

#[global] Instance loading_kept_preorder : PreOrder loading_kept.
Proof.
  split.
  - intros s. by split.
  - intros s1 s2 s3 [A1 B1] [A2 B2]. split; auto.
Qed.

Ltac field_prim R :=
  match goal with
  | |- respects _ (emit _) => idtac
  | |- respects _ (modify _) => idtac
  | |- respects _ (newNode _) => idtac
  | |- respects _ (newArray _) => idtac
  end;
  apply respects_step; intros ?; unfold R; simpl; done.

Lemma fixed_expandLoop pullRequest cs : respects fixed (expandLoop pullRequest cs).
Proof.
  apply respects_step. intros s. rewrite expandLoop_run. unfold fixed. by simpl.
Qed.

Lemma loading_expandLoop pullRequest cs :
  respects loading_kept (expandLoop pullRequest cs).
Proof.
  apply respects_step. intros s. rewrite expandLoop_run. unfold loading_kept.
  by simpl.
Qed.

Lemma fixed_world rm h : respects fixed (world rm h).
Proof.
  apply respects_step. intros s. unfold fixed, world, modify. simpl.
  repeat split; try done; by destruct (_reposManager s).
Qed.

Lemma fixed_exec o :
  (∀ rm reviewModels store, o ≠ Oinitialize rm reviewModels store) →
  respects fixed (exec o).
Proof.
  intros H. destruct o; [by destruct (H reposManager reviewModels store)|..];
    unfold exec, discard, getChildren, needsRemotes,
      getCategoryTreeNodes, cachedChildren, expandPullRequest, refreshList,
      loadMore, onDidChangeConfiguration, onDidChangeCheckboxState,
      onDidExpandElement, onDidCollapseElement, _updateExpandedQueries, dispose,
      push, refresh;
    respects_go ltac:(first [apply fixed_expandLoop | apply fixed_world
                            | field_prim fixed]).
Qed.

Lemma loading_exec o : respects loading_kept (exec o).
Proof.
  destruct o; unfold exec, discard, initialize, getChildren, needsRemotes,
    getCategoryTreeNodes, cachedChildren, expandPullRequest, refreshList,
    loadMore, onDidChangeConfiguration, onDidChangeCheckboxState,
    onDidExpandElement, onDidCollapseElement, _updateExpandedQueries, dispose,
    world, push, refresh;
    respects_go ltac:(first [apply loading_expandLoop | field_prim loading_kept]).
Qed.

Lemma wired_fixed s s' : wired s → fixed s s' → wired s'.
Proof.
  intros W (D & I & N & R). unfold wired. rewrite D, I, N.
  destruct W as [(W1 & W2 & W3 & W4)|(W1 & W2 & W3)].
  - left. repeat split; try done. by apply R.
  - right. repeat split; try done.
    destruct (_reposManager s') eqn:X; [done|].
    rewrite (proj1 R eq_refl) in W2. by destruct W2.
Qed.

Lemma wired_step s o : wired s → wired (step s o).
Proof.
  intros W. unfold step.
  assert (D : (∃ rm rv st, o = Oinitialize rm rv st)
               ∨ ∀ rm rv st, o ≠ Oinitialize rm rv st).
  { destruct o; [left; by eexists _, _, _|right; by intros ..]. }
  destruct D as [(rm & rv & st & ->)|N].
  - simpl. destruct (_initialized s) eqn:I.
    + unfold initialize, bind, gets, throw. by rewrite I.
    + rewrite initialize_run by done. simpl.
      destruct W as [(W1 & W2 & W3 & W4)|(W1 & _)]; [|congruence].
      right. split; [done|]. split; [done|]. exists rm, rv, st.
      by rewrite W2.
  - destruct (exec o s) as [r s'] eqn:E. simpl.
    apply (wired_fixed s); [done|]. by apply (fixed_exec o) in E.
Qed.

Lemma wired_run ops s : wired s → wired (run ops s).
Proof.
  revert s. induction ops as [|o ops IH]; intros s W; [done|].
  simpl. apply IH. by apply wired_step.
Qed.

Lemma loading_run ops s : loading_kept s (run ops s).
Proof.
  revert s. induction ops as [|o ops IH]; intros s; [reflexivity|].
  simpl. etransitivity; [|apply IH]. unfold step.
  destruct (exec o s) as [r s'] eqn:E. exact (loading_exec o _ _ _ E).
Qed.

Lemma reachable_leakfree s : reachable s → leakfree s.
Proof. intros (h & memento & ops & ->). apply leakfree_run, leakfree_constructor. Qed.

Lemma wired_constructor h memento : wired (constructor h memento).
Proof. left. by repeat split. Qed.

Lemma reachable_wired s : reachable s → wired s.
Proof. intros (h & memento & ops & ->). apply wired_run, wired_constructor. Qed.

Lemma queries_listener_iff s :
  wired s →
  (ConfigurationListener QUERIES ∈ _disposables s ↔ _initialized s = true).
Proof.
  intros [(I & D & _)|(I & _ & rm & rv & st & D & _)]; rewrite I, D.
  - split; [|done]. unfold constructed. intros H.
    repeat (apply elem_of_cons in H as [[=]|H]). by apply elem_of_nil in H.
  - split; [done|]. intros _. unfold wiring.
    rewrite !elem_of_app. right. right. right. right.
    apply elem_of_cons. right. apply elem_of_cons. by left.
Qed.

Lemma wiring_run ops s :
  _initialized s = true →
  _disposables (run ops s) = _disposables s
  ∧ notificationProvider (run ops s) = notificationProvider s.
Proof.
  revert s. induction ops as [|o ops IH]; intros s I; [done|].
  simpl. assert (F : fixed s (step s o)).
  { unfold step. destruct o;
      try (destruct (exec _ s) as [r s'] eqn:E;
           by apply fixed_exec in E).
    simpl. unfold initialize, bind, gets, throw. rewrite I. reflexivity. }
  destruct F as (D & I' & N & _).
  destruct (IH (step s o)) as [D' N']; [congruence|].
  split; congruence.
Qed.

Lemma filter_eq_le {A} `{EqDecision A} (x : A) (l : list A) :
  NoDup l → length (filter (λ y, y = x) l) ≤ 1.
Proof.
  intros H. destruct (decide (x ∈ l)) as [Hx|Hx].
  - by rewrite filter_eq_once.
  - replace (length (filter (λ y, y = x) l)) with 0; [lia|].
    symmetry. apply filter_nil_Forall, Forall_forall. by intros y Hy ->.
Qed.

Lemma Set_delete_NoDup x xs : NoDup xs → NoDup (Set_delete x xs).
Proof. apply NoDup_filter. Qed.

Lemma Set_delete_gone x xs : x ∉ Set_delete x xs.
Proof. rewrite Set_delete_elem. by intros [? _]. Qed.


Lemma rebuilds_spec s :
  rebuilds None s = true ↔
  ∃ rm, _reposManager s = Some rm ∧ folderManagers rm ≠ []
        ∧ state rm ≠ Initializing
        ∧ Exists (λ m, getGitHubRemotes m ≠ []) (folderManagers rm).
Proof.
  split.
  - intros (_ & rm & E & F & I & G & _)%rebuilds_true. exists rm.
    repeat split; try done. apply not_Forall_Exists; [apply _|].
    intros X. apply noGitHubRemotes_spec in X. congruence.
  - intros (rm & E & F & I & G). unfold rebuilds. rewrite E.
    rewrite (length_zero_false _ F), (bool_decide_eq_false_2 _ I).
    destruct (noGitHubRemotes rm) eqn:X; [|done].
    apply noGitHubRemotes_spec in X. apply Exists_exists in G as (m & Hm & Hn).
    by rewrite Forall_forall in X; specialize (X m Hm).
Qed.

#[global] Instance same_manager_preorder : PreOrder same_manager.
Proof.
  split; [by intros s|]. intros s1 s2 s3 [A1 B1] [A2 B2]. split; congruence.
Qed.

Lemma same_manager_getChildren element :
  respects same_manager (getChildren element).
Proof.
  unfold getChildren, needsRemotes, getCategoryTreeNodes.
  respects_go ltac:(field_prim same_manager).
Qed.


Lemma initialize_constructor h memento rm reviewModels store :
  let s1 := (initialize rm reviewModels store (constructor h memento)).2 in
  _initialized s1 = true
  ∧ _disposables s1 = constructed ++ wiring rm reviewModels
  ∧ notificationProvider s1 = Some (NewNotificationProvider store rm).
Proof. intros s1. unfold s1. rewrite initialize_run by reflexivity. by repeat split. Qed.

Lemma run_cons o ops s : run (o :: ops) s = run ops (step s o).
Proof. reflexivity. Qed.

(** ** The properties *)

(** C1: a root request that reaches the rebuild calls [dispose] on every
    node of the stored root set, in order, before it constructs a node of
    the new one; each of those nodes has then been disposed exactly once in
    the whole history of the provider.  The new root set is a fresh array
    that [_children] is pointed to: the array it pointed to before, like
    every array allocated earlier, keeps its contents. *)
Theorem root_rebuild_disposes_previous_set :
  ∀ (s : State) (rm : RepositoriesManager),
    reachable s →
    _reposManager s = Some rm → folderManagers rm ≠ [] → state rm ≠ Initializing →
    Exists (λ m, getGitHubRemotes m ≠ []) (folderManagers rm) →
    ∃ result s',
      getChildren None s = (Ok result, s')
      ∧ since s s'
        = EvEnter (MgetChildren None)
            :: (EvDispose <$> children s) ++ (EvNew <$> result)
      ∧ (∀ n, n ∈ children s →
           occurrences (EvDispose n) (since s s') = 1
           ∧ occurrences (EvDispose n) (trace s') = 1)
      ∧ (∀ n, n ∈ result →
           (n ∉ children s) ∧ occurrences (EvDispose n) (trace s') = 0)
      ∧ children s' = result
      ∧ arrays s !! _children s' = None
      ∧ arrays s' = <[_children s' := result]> (arrays s)
      ∧ (∀ l, is_Some (arrays s !! l) → arrays s' !! l = arrays s !! l).
Proof.
  intros s rm R E F I G.
  assert (G' : noGitHubRemotes rm = false).
  { destruct (noGitHubRemotes rm) eqn:X; [|done].
    apply noGitHubRemotes_spec in X. apply Exists_exists in G as (m & Hm & Hn).
    by rewrite Forall_forall in X; specialize (X m Hm). }
  pose proof (reachable_wf s R) as W.
  pose proof (wf_rebuilt s rm W) as W'.
  rewrite (getChildren_root s rm E F I G').
  set (result := freshNodes (nextRef s) (rootKinds (host s) rm)).
  exists result, (rebuilt s rm). split; [reflexivity|].
  assert (Hs : since s (rebuilt s rm)
               = EvEnter (MgetChildren None)
                   :: (EvDispose <$> children s) ++ (EvNew <$> result)).
  { apply since_extend. by rewrite trace_rebuilt. }
  split; [exact Hs|]. split; [|split; [|split; [|split; [|split]]]].
  - intros n Hn. rewrite !occurrences_dispose. split.
    + rewrite Hs. change (EvEnter ?m :: ?t) with ([EvEnter m] ++ t).
      rewrite !disposed_app, disposed_dispose, disposed_new, app_nil_r. simpl.
      apply filter_eq_once; [|done]. apply NoDup_refs, (wf_nodup s W).
    + apply filter_eq_once; [apply (wf_once _ W')|].
      rewrite disposed_rebuilt. apply elem_of_app. by right.
  - intros n Hn. split.
    + intros Hc%(wf_refs s W). apply freshNodes_refs in Hn. lia.
    + rewrite occurrences_dispose. apply filter_nil_Forall, Forall_forall.
      intros x Hx ->. apply (wf_live _ W' n); [|done].
      by rewrite children_rebuilt.
  - apply children_rebuilt.
  - destruct (arrays s !! _children (rebuilt s rm)) as [xs|] eqn:L; [|done].
    apply (wf_arrays s W) in L. unfold rebuilt in L. simpl in L. lia.
  - reflexivity.
  - intros l [xs L]. unfold rebuilt. simpl. rewrite lookup_insert_ne; [done|].
    apply (wf_arrays s W) in L. lia.
Qed.

(** Two root requests in a row over one folder: the second disposes the
    three category nodes of the first and returns three new ones. *)
Lemma root_rebuild_disposes_previous_set_witness :
  let s :=
    run [ Oinitialize (Examples.manager RepositoriesLoaded [Examples.githubFolder]) []
            Examples.store;
          OgetChildren None ]
      (constructor (Examples.hostWith None) None) in
  ref <$> children s = [1; 2; 3]
  ∧ ∃ result s',
      getChildren None s = (Ok result, s')
      ∧ disposed (since s s') = children s
      ∧ ref <$> result = [5; 6; 7]
      ∧ children s' = result.
Proof.
  intros s. split; [vm_compute; reflexivity|].
  destruct (root_rebuild_disposes_previous_set s
              (Examples.manager RepositoriesLoaded [Examples.githubFolder])
              (reachable_intro _ _ _)
              ltac:(vm_compute; reflexivity)
              ltac:(vm_compute; discriminate) ltac:(vm_compute; discriminate)
              ltac:(apply Exists_cons_hd; vm_compute; discriminate))
    as (result & s' & H1 & H2 & _ & _ & H3 & _).
  exists result, s'. split; [exact H1|]. split; [|split; [|exact H3]].
  - rewrite H2. change (EvEnter ?m :: ?t) with ([EvEnter m] ++ t).
    by rewrite !disposed_app, disposed_dispose, disposed_new, app_nil_r.
  - vm_compute in H1. injection H1 as <- _. vm_compute. reflexivity.
Defined.

(** C2: the gate answers with exactly the list of the policy, one new
    placeholder node per entry and in the policy's order: nothing when the
    manager needs authentication; otherwise [NoMatchingRemotes;
    ConfigureRemotes] when a remotes setting is present and [NoRemotes] when
    not, followed by [LoginEnterprise] when an enterprise remote exists and
    enterprise authentication is not established.  [getChildren] returns
    that list whenever no folder manager has a GitHub remote. *)
Theorem needsRemotes_follows_policy :
  (∀ s : State,
     ∃ nodes, (needsRemotes s).1 = Ok nodes
       ∧ kind <$> nodes
         = PRCategoryActionNode
             <$> Gate.policy (Gate.readiness s) (Gate.allowlist s)
                   (Gate.enterpriseRemote s) (Gate.enterpriseAuth s))
  ∧ (∀ (element : option TreeNode) (s : State) (rm : RepositoriesManager),
       _reposManager s = Some rm → folderManagers rm ≠ [] →
       state rm ≠ Initializing →
       Forall (λ m, getGitHubRemotes m = []) (folderManagers rm) →
       ∃ nodes, (getChildren element s).1 = Ok nodes
         ∧ kind <$> nodes
           = PRCategoryActionNode
               <$> Gate.policy (Some (state rm)) (Gate.allowlist s)
                     (Gate.enterpriseRemote s) (Gate.enterpriseAuth s))
  ∧ (∀ allowlist enterpriseRemote enterpriseAuth,
       Gate.policy (Some NeedsAuthentication) allowlist enterpriseRemote
         enterpriseAuth = [])
  ∧ (∀ st, st ≠ NeedsAuthentication →
       Gate.policy (Some st) true true false
         = [NoMatchingRemotes; ConfigureRemotes; LoginEnterprise]
       ∧ Gate.policy (Some st) false true false = [NoRemotes; LoginEnterprise]
       ∧ (∀ enterpriseRemote enterpriseAuth,
            enterpriseRemote && negb enterpriseAuth = false →
            Gate.policy (Some st) true enterpriseRemote enterpriseAuth
              = [NoMatchingRemotes; ConfigureRemotes]
            ∧ Gate.policy (Some st) false enterpriseRemote enterpriseAuth
              = [NoRemotes])).
Proof.
  split; [|split; [|split]].
  - intros s. rewrite needsRemotes_run. eexists. split; [reflexivity|].
    apply freshNodes_kinds.
  - intros element s rm E F I G%noGitHubRemotes_spec.
    rewrite (getChildren_gate_run element s rm E F I G).
    eexists. split; [reflexivity|]. rewrite freshNodes_kinds.
    unfold Gate.decision, Gate.readiness. by rewrite E.
  - intros. unfold Gate.policy. by rewrite decide_True.
  - intros st Hst. unfold Gate.policy. rewrite !decide_False by congruence.
    split; [done|]. split; [done|].
    intros enterpriseRemote enterpriseAuth H.
    rewrite !decide_False by congruence. rewrite H. by split.
Qed.

(** One folder whose only remote is an enterprise remote, a remotes setting
    and no enterprise authentication: three placeholders, in order. *)
Lemma needsRemotes_follows_policy_witness :
  ∃ nodes,
    (getChildren None
       (Examples.started RepositoriesLoaded [Examples.enterpriseFolder]
          (Some ["origin"%string]))).1 = Ok nodes
    ∧ kind <$> nodes
      = [ PRCategoryActionNode NoMatchingRemotes;
          PRCategoryActionNode ConfigureRemotes;
          PRCategoryActionNode LoginEnterprise ].
Proof.
  destruct (proj1 (proj2 needsRemotes_follows_policy) None
              (Examples.started RepositoriesLoaded [Examples.enterpriseFolder]
                 (Some ["origin"%string]))
              (Examples.manager RepositoriesLoaded [Examples.enterpriseFolder])
              eq_refl ltac:(vm_compute; discriminate) ltac:(vm_compute; discriminate)
              ltac:(by repeat constructor)) as (nodes & H1 & H2).
  exists nodes. split; [exact H1|]. rewrite H2. vm_compute. reflexivity.
Defined.

(** C3 fails for a root request: one folder without any remote, the
    repositories loaded.  The request stops at the GitHub-remotes check and
    returns the gate's [NoRemotes] placeholder. *)
Lemma empty_placeholder_at_root_fails :
  ¬ empty_placeholder_at_root
      (Examples.started RepositoriesLoaded [Examples.noRemotesFolder] None).
Proof.
  intros H.
  destruct (H (Examples.manager RepositoriesLoaded [Examples.noRemotesFolder])
              eq_refl ltac:(by repeat constructor)) as (n & H1 & H2).
  vm_compute in H1. injection H1 as <-. discriminate H2.
Qed.

(** C3, amended: the native-remotes check guards the requests for the
    children of an element.  Such a request, when it passes the earlier
    checks and no folder repository has a native remote, returns one new
    [Empty] placeholder instead of delegating to the element, and leaves the
    root set alone.  A root request never returns an [Empty] placeholder. *)
Theorem empty_placeholder_for_element :
  (∀ (e : TreeNode) (s : State) (rm : RepositoriesManager),
     _reposManager s = Some rm → folderManagers rm ≠ [] → state rm ≠ Initializing →
     Exists (λ m, getGitHubRemotes m ≠ []) (folderManagers rm) →
     Forall (λ m, repository_state_remotes m = []) (folderManagers rm) →
     ∃ n s',
       getChildren (Some e) s = (Ok [n], s')
       ∧ kind n = PRCategoryActionNode Empty
       ∧ ref n = nextRef s
       ∧ since s s' = [EvEnter (MgetChildren (Some e)); EvNew n]
       ∧ (EvGetChildren e ∉ since s s')
       ∧ children s' = children s)
  ∧ (∀ (s : State) nodes n,
       (getChildren None s).1 = Ok nodes → n ∈ nodes →
       kind n ≠ PRCategoryActionNode Empty).
Proof.
  split; [|apply root_request_never_empty].
  intros e s rm E F I G N%noNativeRemotes_spec.
  assert (G' : noGitHubRemotes rm = false).
  { destruct (noGitHubRemotes rm) eqn:X; [|done].
    apply noGitHubRemotes_spec in X. apply Exists_exists in G as (m & Hm & Hn).
    by rewrite Forall_forall in X; specialize (X m Hm). }
  rewrite (getChildren_empty e s rm E F I G' N). cbv zeta.
  eexists _, _. split; [reflexivity|].
  split; [reflexivity|]. split; [reflexivity|].
  erewrite since_extend by reflexivity. split; [reflexivity|]. split; [|reflexivity].
  intros H. repeat (apply elem_of_cons in H as [[=]|H]). by apply elem_of_nil in H.
Qed.

(** A folder with a GitHub remote but no native remote, and a request for
    the children of its category [All]. *)
Lemma empty_placeholder_for_element_witness :
  let folder :=
    {| rootUri := "file:///work/oss"%string;
       getGitHubRemotes := [ {| remoteName := "origin"%string; authProvider := github |} ];
       computeAllGitHubRemotes :=
         [ {| remoteName := "origin"%string; authProvider := github |} ];
       repository_state_remotes := [] |} in
  let s := Examples.started RepositoriesLoaded [folder] None in
  let e := {| ref := 7; kind := CategoryTreeNode All "All"%string |} in
  ∃ n s', getChildren (Some e) s = (Ok [n], s')
          ∧ kind n = PRCategoryActionNode Empty.
Proof.
  intros folder s e.
  destruct (proj1 empty_placeholder_for_element e s
              (Examples.manager RepositoriesLoaded [folder])
              eq_refl ltac:(vm_compute; discriminate) ltac:(vm_compute; discriminate)
              ltac:(apply Exists_cons_hd; vm_compute; discriminate)
              ltac:(by repeat constructor))
    as (n & s' & H1 & H2 & _).
  by exists n, s'.
Defined.

(** C4: once [initialize] has succeeded, and whatever happened to the
    provider since, a further call throws at once and leaves the state as it
    found it: the subscriptions in [_disposables], the stored manager and
    the root set are those from before the call, and nothing is fired. *)
Theorem initialize_twice_throws :
  ∀ (s : State) rm1 reviewModels1 store1 (ops : list Op) rm2 reviewModels2 store2,
    (initialize rm1 reviewModels1 store1 s).1 = Ok tt →
    let s1 := run ops (initialize rm1 reviewModels1 store1 s).2 in
    let again := initialize rm2 reviewModels2 store2 s1 in
    again = (Throw "Tree has already been initialized!"%string, s1)
    ∧ _disposables again.2 = _disposables s1
    ∧ _reposManager again.2 = _reposManager s1
    ∧ children again.2 = children s1
    ∧ since s1 again.2 = [].
Proof.
  intros s rm1 rv1 st1 ops rm2 rv2 st2 H s1 again.
  assert (I1 : _initialized (initialize rm1 rv1 st1 s).2 = true).
  { destruct (_initialized s) eqn:I.
    - unfold initialize, bind, gets, throw in H. by rewrite I in H.
    - by rewrite initialize_run. }
  assert (I2 : _initialized s1 = true) by by apply initialized_run.
  assert (E : again = (Throw "Tree has already been initialized!"%string, s1)).
  { unfold again, initialize, bind, gets, throw. by rewrite I2. }
  rewrite E. simpl. repeat split; try done.
  unfold since. by rewrite drop_all.
Qed.

(** A provider initialized over one folder, then a root request and a
    refresh command: the fifteen subscriptions are still those of the first
    call when the second call throws. *)
Lemma initialize_twice_throws_witness :
  let rm := Examples.manager RepositoriesLoaded [Examples.githubFolder] in
  let s1 :=
    run [OgetChildren None; OrefreshList]
      (initialize rm [3] Examples.store Examples.fresh).2 in
  length (_disposables s1) = 15
  ∧ initialize rm [3] Examples.store s1
    = (Throw "Tree has already been initialized!"%string, s1).
Proof.
  intros rm s1. split; [vm_compute; reflexivity|].
  apply (initialize_twice_throws Examples.fresh rm [3] Examples.store
           [OgetChildren None; OrefreshList] rm [3] Examples.store).
  vm_compute. reflexivity.
Defined.

(** C5 fails when the persisted set already holds the category: with
    ["All"] stored, expanding and then collapsing the category [All] leaves
    the empty set. *)
Lemma expand_collapse_restores_fails :
  ¬ expand_collapse_restores
      {| ref := 3; kind := CategoryTreeNode All "All"%string |}
      (constructor (Examples.hostWith None) (Some ["All"%string])).
Proof.
  unfold expand_collapse_restores.
  rewrite (persisted_collapse _ All "All"%string) by reflexivity.
  rewrite (persisted_expand _ All "All"%string) by reflexivity.
  unfold persisted. simpl default. intros H.
  assert (X : "All"%string ∈ (list_to_set ["All"%string] : gset string)).
  { apply elem_of_list_to_set, list_elem_of_singleton. reflexivity. }
  rewrite <- H in X. apply elem_of_difference in X as [_ X].
  apply X, elem_of_singleton. reflexivity.
Qed.

(** C5, amended: for a category node [Q], an expand event followed by a
    collapse event leaves the persisted set without [Q]'s id, which is the
    set from before the expand event exactly when that set did not hold the
    id (a stored array without duplicates is then restored as it was); two
    expand events in a row leave the state that one leaves. *)
Theorem expand_collapse_round_trip :
  ∀ (Q : TreeNode) (type : PRType) (id : string) (s : State),
    kind Q = CategoryTreeNode type id →
    let expanded := (onDidExpandElement Q s).2 in
    let collapsed := (onDidCollapseElement Q expanded).2 in
    persisted expanded = {[id]} ∪ persisted s
    ∧ persisted collapsed = persisted s ∖ {[id]}
    ∧ (id ∉ persisted s → persisted collapsed = persisted s)
    ∧ (id ∉ persisted s → ∀ stored, workspaceState s = Some stored →
         NoDup stored → collapsed = s)
    ∧ onDidExpandElement Q expanded = onDidExpandElement Q s.
Proof.
  intros Q type id s K expanded collapsed.
  assert (E1 : persisted expanded = {[id]} ∪ persisted s)
    by apply (persisted_expand Q type id s K).
  assert (E2 : persisted collapsed = persisted s ∖ {[id]}).
  { unfold collapsed. rewrite (persisted_collapse Q type id _ K), E1.
    apply set_eq. intros y.
    rewrite !elem_of_difference, elem_of_union, elem_of_singleton. tauto. }
  split; [exact E1|]. split; [exact E2|]. split; [|split].
  - intros H. rewrite E2. apply set_eq. intros y.
    rewrite elem_of_difference, elem_of_singleton. split; [tauto|].
    intros Hy. split; [done|]. by intros ->.
  - intros H stored Hs Hn. unfold collapsed, expanded.
    unfold onDidExpandElement, onDidCollapseElement.
    rewrite !(updateExpandedQueries_run _ _ _ _ _ K). simpl.
    rewrite Hs. simpl. rewrite (Set_new_id stored Hn).
    assert (Hid : id ∉ stored).
    { intros X. apply H. unfold persisted. rewrite Hs. simpl.
      by apply elem_of_list_to_set. }
    rewrite Set_new_id by by apply Set_add_NoDup.
    rewrite Set_delete_add by done. destruct s. simpl in *. by subst.
  - unfold expanded, onDidExpandElement.
    rewrite !(updateExpandedQueries_run _ _ _ _ _ K). simpl.
    rewrite Set_new_id by apply Set_add_NoDup, Set_new_NoDup.
    replace (Set_add id (Set_add id (Set_new (default [] (workspaceState s)))))
      with (Set_add id (Set_new (default [] (workspaceState s)))).
    + by destruct s.
    + set (xs := Set_add id _). unfold Set_add.
      rewrite decide_True; [done|]. apply Set_add_elem. by left.
Qed.

(** With only ["Created By Me"] stored, expanding and then collapsing the
    category [All] restores the provider state. *)
Lemma expand_collapse_round_trip_witness :
  let Q := {| ref := 3; kind := CategoryTreeNode All "All"%string |} in
  let s := constructor (Examples.hostWith None) (Some ["Created By Me"%string]) in
  workspaceState (onDidExpandElement Q s).2 = Some ["Created By Me"; "All"]%string
  ∧ (onDidCollapseElement Q (onDidExpandElement Q s).2).2 = s.
Proof.
  intros Q s. split; [vm_compute; reflexivity|].
  refine (proj1 (proj2 (proj2 (proj2
            (expand_collapse_round_trip Q All "All"%string s eq_refl)))) _
            ["Created By Me"%string] eq_refl _).
  - unfold persisted. simpl default. rewrite elem_of_list_to_set.
    intros H%list_elem_of_singleton. discriminate H.
  - apply NoDup_singleton.
Defined.

(** C6: when the manager reports [Initializing] and a folder manager is
    configured, [getChildren] returns an empty sequence and sets the loading
    context key, whatever the remotes are: the check comes before the
    GitHub-remotes check, and the gate is not entered. *)
Theorem getChildren_initializing_first :
  ∀ (element : option TreeNode) (s : State) (rm : RepositoriesManager),
    _reposManager s = Some rm → folderManagers rm ≠ [] → state rm = Initializing →
    getChildren element s
      = (Ok [], with_loadingContext (Some true) (entered element s))
    ∧ loadingContext (getChildren element s).2 = Some true
    ∧ EvEnter MneedsRemotes ∉ since s (getChildren element s).2.
Proof.
  intros element s rm E F I.
  rewrite (getChildren_initializing element s rm E F I). simpl.
  repeat split. erewrite since_extend by reflexivity.
  by intros [=]%list_elem_of_singleton.
Qed.

(** A folder without any remote: while the manager initializes the root
    request answers with the empty sequence; once the repositories are
    loaded the same request reaches the gate. *)
Lemma getChildren_initializing_first_witness :
  noGitHubRemotes (Examples.manager Initializing [Examples.noRemotesFolder]) = true
  ∧ (getChildren None
       (Examples.started Initializing [Examples.noRemotesFolder] None)).1 = Ok []
  ∧ loadingContext
      (getChildren None
         (Examples.started Initializing [Examples.noRemotesFolder] None)).2 = Some true
  ∧ children
      (getChildren None
         (Examples.started RepositoriesLoaded [Examples.noRemotesFolder] None)).2 = []
  ∧ ∃ n, (getChildren None
            (Examples.started RepositoriesLoaded [Examples.noRemotesFolder] None)).1
         = Ok [n] ∧ kind n = PRCategoryActionNode NoRemotes.
Proof.
  pose proof (getChildren_initializing_first None
                (Examples.started Initializing [Examples.noRemotesFolder] None)
                (Examples.manager Initializing [Examples.noRemotesFolder])
                eq_refl ltac:(done) eq_refl) as (H1 & H2 & _).
  split; [vm_compute; reflexivity|]. split; [by rewrite H1|]. split; [exact H2|].
  split; [vm_compute; reflexivity|]. eexists. split; vm_compute; reflexivity.
Defined.

(** C7: with no repositories manager, or one without folder managers,
    [getChildren] returns an empty sequence for any element; the gate
    [needsRemotes] is not entered and no node is constructed: the only
    trace the call leaves is its own entry. *)
Theorem getChildren_unconfigured :
  ∀ (element : option TreeNode) (s : State),
    (_reposManager s = None
     ∨ (∃ rm, _reposManager s = Some rm ∧ folderManagers rm = [])) →
    getChildren element s = (Ok [], entered element s)
    ∧ since s (getChildren element s).2 = [EvEnter (MgetChildren element)]
    ∧ (EvEnter MneedsRemotes ∉ since s (getChildren element s).2)
    ∧ (∀ n, EvNew n ∉ since s (getChildren element s).2)
    ∧ nextRef (getChildren element s).2 = nextRef s.
Proof.
  intros element s H.
  assert (E : getChildren element s = (Ok [], entered element s)).
  { destruct H as [H|(rm & H & F)].
    - by apply getChildren_no_manager.
    - by apply (getChildren_no_folders _ _ rm). }
  rewrite E. simpl. erewrite since_extend by reflexivity.
  repeat split; try done.
  - by intros [=]%list_elem_of_singleton.
  - by intros n [=]%list_elem_of_singleton.
Qed.

(** A provider that was never initialized, and one initialized over a
    manager without folders. *)
Lemma getChildren_unconfigured_witness :
  _reposManager Examples.fresh = None
  ∧ getChildren None Examples.fresh = (Ok [], entered None Examples.fresh)
  ∧ (getChildren None (Examples.started RepositoriesLoaded [] None)).1 = Ok [].
Proof.
  split; [reflexivity|]. split.
  - apply (getChildren_unconfigured None Examples.fresh). by left.
  - rewrite (proj1 (getChildren_unconfigured None
                      (Examples.started RepositoriesLoaded [] None)
                      (or_intror (ex_intro _ _ (conj eq_refl eq_refl))))).
    reflexivity.
Defined.

(** C8: on a provider whose root set is empty, [expandPullRequest] makes
    exactly one root request, and makes it before it asks any node; it then
    asks, in the order of the root set, the workspace-folder nodes and the
    category node of type [All], up to and including the first that reports
    a match.  It never throws, whether or not a node matches.  On a
    materialized root set it makes no request at all. *)
Theorem expandPullRequest_fetches_once_then_searches :
  (∀ (pullRequest : PullRequestModel) (s : State),
     children s = [] →
     ∃ r s1 s2,
       getChildren None s = (Ok r, s1)
       ∧ expandPullRequest pullRequest s = (Ok tt, s2)
       ∧ since s s2
         = since s s1
             ++ ((λ c, EvExpandPullRequest c pullRequest)
                   <$> asked (host s) pullRequest (children s1))
       ∧ head (since s s2) = Some (EvEnter (MgetChildren None))
       ∧ fetches (since s s2) = 1
       ∧ Forall (λ e, isAsk e = false) (since s s1))
  ∧ (∀ (pullRequest : PullRequestModel) (s : State),
       (expandPullRequest pullRequest s).1 = Ok tt)
  ∧ (∀ (pullRequest : PullRequestModel) (s : State),
       children s ≠ [] →
       since s (expandPullRequest pullRequest s).2
         = (λ c, EvExpandPullRequest c pullRequest)
             <$> asked (host s) pullRequest (children s))
  ∧ (∀ h pullRequest cs,
       (Forall (λ c, nodeExpandPullRequest h c pullRequest = false)
          (filter (λ c, delegable c) cs) →
        asked h pullRequest cs = filter (λ c, delegable c) cs)
       ∧ (∀ pre m post,
            filter (λ c, delegable c) cs = pre ++ m :: post →
            Forall (λ c, nodeExpandPullRequest h c pullRequest = false) pre →
            nodeExpandPullRequest h m pullRequest = true →
            asked h pullRequest cs = pre ++ [m])).
Proof.
  split; [|split; [|split]].
  - intros pullRequest s Hc.
    destruct (getChildren_since None s) as (t & Ht & Hin & Hh).
    destruct (getChildren_total None s) as [r Hr].
    destruct (getChildren None s) as [r' s1] eqn:E. simpl in *. subst r'.
    exists r, s1. eexists. split; [reflexivity|].
    rewrite expandPullRequest_run, Hc. simpl bool_decide. cbv iota zeta.
    rewrite E. simpl snd. rewrite expandLoop_run, Hh.
    split; [reflexivity|].
    assert (S1 : since s s1 = EvEnter (MgetChildren None) :: t)
      by by apply since_extend.
    assert (S2 : since s
                   (with_trace
                      (trace s1 ++ ((λ c, EvExpandPullRequest c pullRequest)
                                      <$> asked (host s) pullRequest (children s1))) s1)
                 = since s s1 ++ ((λ c, EvExpandPullRequest c pullRequest)
                                    <$> asked (host s) pullRequest (children s1))).
    { rewrite S1. apply since_extend. simpl. rewrite Ht.
      by rewrite <- app_assoc. }
    rewrite S2, S1. split; [reflexivity|]. split; [reflexivity|]. split.
    + rewrite fetches_app, (fetches_asks (λ c, c)).
      change (EvEnter ?m :: t) with ([EvEnter m] ++ t).
      by rewrite fetches_app, (fetches_inner t Hin).
    + constructor; [done|]. eapply Forall_impl; [exact Hin|]. by intros e [_ ?].
  - intros pullRequest s. rewrite expandPullRequest_run. cbv zeta.
    by rewrite expandLoop_run.
  - intros pullRequest s Hc. rewrite expandPullRequest_run.
    rewrite bool_decide_eq_false_2 by (by destruct (children s)).
    cbv zeta. rewrite expandLoop_run. simpl. by apply since_extend.
  - intros h pullRequest cs. split.
    + intros H. unfold asked. by apply uptoFirst_none.
    + intros pre m post E Hpre Hm. unfold asked. rewrite E.
      by apply uptoFirst_first.
Qed.

(** Two folders, the node of the first reporting the match: one root
    request, two new workspace-folder nodes, and a single node asked. *)
Lemma expandPullRequest_fetches_once_then_searches_witness :
  let h :=
    {| remotesSetting := None;
       queryCategories := λ _, [(All, "All"%string)];
       nodeExpandPullRequest := λ n _, bool_decide (ref n = 1);
       nodeGetChildren := λ _, [];
       nodeCachedChildren := λ _, [] |} in
  let s :=
    run [Oinitialize
           (Examples.manager RepositoriesLoaded
              [Examples.githubFolder; Examples.enterpriseFolder]) [] Examples.store]
      (constructor h None) in
  children s = []
  ∧ ∃ s2,
      expandPullRequest 42 s = (Ok tt, s2)
      ∧ since s s2
        = [ EvEnter (MgetChildren None);
            EvNew {| ref := 1; kind := WorkspaceFolderNode "file:///work/oss" |};
            EvNew {| ref := 2; kind := WorkspaceFolderNode "file:///work/corp" |};
            EvExpandPullRequest
              {| ref := 1; kind := WorkspaceFolderNode "file:///work/oss" |} 42 ]
      ∧ fetches (since s s2) = 1.
Proof.
  intros h s. split; [vm_compute; reflexivity|].
  destruct (proj1 expandPullRequest_fetches_once_then_searches 42 s
              ltac:(vm_compute; reflexivity))
    as (r & s1 & s2 & H1 & H2 & H3 & _ & H4 & _).
  exists s2. split; [exact H2|]. split; [|exact H4].
  rewrite H3. vm_compute in H1. injection H1 as _ <-. vm_compute. reflexivity.
Defined.

(** C9: a root request that takes the placeholder path neither disposes
    nor replaces the stored root set: [_children] still points to the same,
    unchanged array, no [dispose] is called, and a following
    [cachedChildren()] returns the old root set, none of whose nodes is one
    of the placeholders just returned. *)
Theorem placeholder_path_keeps_root_set :
  ∀ (s : State) (rm : RepositoriesManager),
    reachable s →
    _reposManager s = Some rm → folderManagers rm ≠ [] → state rm ≠ Initializing →
    Forall (λ m, getGitHubRemotes m = []) (folderManagers rm) →
    ∃ placeholders s',
      getChildren None s = (Ok placeholders, s')
      ∧ kind <$> placeholders = PRCategoryActionNode <$> Gate.decision s
      ∧ _children s' = _children s
      ∧ arrays s' = arrays s
      ∧ disposed (since s s') = []
      ∧ cachedChildren None s' = (Ok (children s), s')
      ∧ (∀ n, n ∈ placeholders → n ∉ children s).
Proof.
  intros s rm R E F I G%noGitHubRemotes_spec.
  rewrite (getChildren_gate_run None s rm E F I G). cbv zeta.
  eexists _, _. split; [reflexivity|].
  split; [apply freshNodes_kinds|].
  split; [reflexivity|]. split; [reflexivity|]. split; [|split].
  - erewrite since_extend by reflexivity.
    rewrite disposed_app, disposed_new. reflexivity.
  - reflexivity.
  - intros n H%freshNodes_refs H'. apply (wf_refs s (reachable_wf s R)) in H'. lia.
Qed.

(** A provider that shows the categories of one folder and then loses its
    GitHub remotes: the root request returns one [NoRemotes] placeholder
    while [cachedChildren()] still returns the three category nodes. *)
Lemma placeholder_path_keeps_root_set_witness :
  let s := Examples.lostRemotes in
  length (children s) = 3
  ∧ ∃ placeholders s',
      getChildren None s = (Ok placeholders, s')
      ∧ kind <$> placeholders = [PRCategoryActionNode NoRemotes]
      ∧ cachedChildren None s' = (Ok (children s), s').
Proof.
  intros s. split; [vm_compute; reflexivity|].
  destruct (placeholder_path_keeps_root_set s
              (Examples.manager RepositoriesLoaded [Examples.noRemotesFolder])
              (reachable_intro _ _ _)
              ltac:(vm_compute; reflexivity)
              ltac:(vm_compute; discriminate) ltac:(vm_compute; discriminate)
              ltac:(by repeat constructor))
    as (placeholders & s' & H1 & H2 & _ & _ & _ & H3 & _).
  exists placeholders, s'. split; [exact H1|]. split; [|exact H3].
  rewrite H2. vm_compute. reflexivity.
Defined.

(** C10: the handler of a checkbox-state-changed batch calls
    [updateFromCheckboxChanged(newState)] on each listed node, in the order
    of the batch, changes nothing else, and never fires the tree's
    change-notification emitter. *)
Theorem checkbox_batch_updates_without_refresh :
  ∀ (items : list (TreeNode * CheckboxState)) (s : State),
    onDidChangeCheckboxState items s =
      (Ok tt,
       with_trace
         (trace s ++ ((λ u, EvUpdateFromCheckboxChanged u.1 u.2) <$> items)) s)
    ∧ since s (onDidChangeCheckboxState items s).2
      = (λ u, EvUpdateFromCheckboxChanged u.1 u.2) <$> items
    ∧ ∀ node, EvFire node ∉ since s (onDidChangeCheckboxState items s).2.
Proof.
  intros items s. unfold onDidChangeCheckboxState.
  rewrite (forEach_emit (λ u, EvUpdateFromCheckboxChanged u.1 u.2)). simpl.
  split; [done|]. erewrite since_extend by reflexivity. split; [done|].
  intros node (u & [=] & _)%list_elem_of_fmap.
Qed.

(** ** Further properties *)

(** X1: over any history, every root node the provider has constructed is
    either in the current root set or has been disposed; in trace order the
    constructed root nodes are the disposed ones followed by the current
    ones, so a constructed root node outside the root set has been disposed
    exactly once. *)
Theorem root_nodes_never_leak :
  ∀ s : State,
    reachable s →
    filter (λ e, isBuilt e) (trace s)
      = EvNew <$> (disposed (trace s) ++ children s)
    ∧ ∀ n, isRoot (kind n) = true → EvNew n ∈ trace s →
        n ∈ children s ∨ occurrences (EvDispose n) (trace s) = 1.
Proof.
  intros s R. pose proof (reachable_leakfree s R) as L. split; [exact L|].
  intros n K H.
  assert (B : EvNew n ∈ filter (λ e, isBuilt e) (trace s)).
  { apply list_elem_of_filter. split; [|done]. simpl. by rewrite K. }
  rewrite L in B. apply list_elem_of_fmap in B as (m & [= <-] & B).
  apply elem_of_app in B as [B|B]; [right|by left].
  rewrite occurrences_dispose. apply filter_eq_once; [|done].
  apply (wf_once s (reachable_wf s R)).
Qed.

(** Three root requests over one folder: nine category nodes constructed,
    the first six disposed, the last three current. *)
Lemma root_nodes_never_leak_witness :
  let s :=
    run [ Oinitialize (Examples.manager RepositoriesLoaded [Examples.githubFolder]) []
            Examples.store;
          OgetChildren None; OgetChildren None; OgetChildren None ]
      (constructor (Examples.hostWith None) None) in
  length (filter (λ e, isBuilt e) (trace s)) = 9
  ∧ length (disposed (trace s)) = 6
  ∧ filter (λ e, isBuilt e) (trace s)
    = EvNew <$> (disposed (trace s) ++ children s).
Proof.
  intros s. split; [vm_compute; reflexivity|]. split; [vm_compute; reflexivity|].
  exact (proj1 (root_nodes_never_leak s (reachable_intro _ _ _))).
Defined.

(** X2: over any history no node is disposed twice, no node of the current
    root set has been disposed, and the current root set consists of
    distinct objects, all workspace-folder or category nodes. *)
Theorem disposal_at_most_once :
  ∀ s : State,
    reachable s →
    (∀ n, occurrences (EvDispose n) (trace s) ≤ 1)
    ∧ (∀ n, n ∈ children s → occurrences (EvDispose n) (trace s) = 0)
    ∧ NoDup (ref <$> children s)
    ∧ (∀ n, n ∈ children s → isRoot (kind n) = true).
Proof.
  intros s R. pose proof (reachable_wf s R) as W.
  split; [|split; [|split]].
  - intros n. rewrite occurrences_dispose. apply filter_eq_le, (wf_once s W).
  - intros n Hn. rewrite occurrences_dispose.
    apply filter_nil_Forall, Forall_forall. intros x Hx ->.
    by apply (wf_live s W n).
  - apply (wf_nodup s W).
  - intros n Hn. pose proof (wf_kinds s W n Hn) as K.
    by destruct (kind n).
Qed.

(** After the remotes of the only folder have disappeared, the three
    category nodes are still the root set, distinct and not disposed. *)
Lemma disposal_at_most_once_witness :
  length (children Examples.lostRemotes) = 3
  ∧ NoDup (ref <$> children Examples.lostRemotes)
  ∧ ∀ n, n ∈ children Examples.lostRemotes →
      occurrences (EvDispose n) (trace Examples.lostRemotes) = 0.
Proof.
  split; [vm_compute; reflexivity|].
  destruct (disposal_at_most_once Examples.lostRemotes (reachable_intro _ _ _))
    as (_ & H & N & _).
  split; [exact N | exact H].
Defined.

(** X3: over any history the subscriptions are those of the constructor,
    in its order, followed once [initialize] has succeeded by those of that
    one call; they are never pushed a second time.  The manager is stored,
    and the listener for the queries setting registered, exactly when the
    provider is initialized. *)
Theorem subscriptions_pushed_once :
  ∀ s : State,
    reachable s →
    wired s
    ∧ (ConfigurationListener QUERIES ∈ _disposables s ↔ _initialized s = true)
    ∧ (is_Some (_reposManager s) ↔ _initialized s = true).
Proof.
  intros s R. pose proof (reachable_wired s R) as W.
  split; [exact W|]. split; [by apply queries_listener_iff|].
  destruct W as [(I & _ & M & _)|(I & M & _)]; rewrite I.
  - rewrite M. split; [by intros [? ?]|done].
  - by split.
Qed.

(** A provider initialized over two folders and one review model, then
    refreshed, asked for its root and initialized again: sixteen
    subscriptions. *)
Lemma subscriptions_pushed_once_witness :
  let rm :=
    Examples.manager RepositoriesLoaded
      [Examples.githubFolder; Examples.enterpriseFolder] in
  let s :=
    run [ Oinitialize rm [7] Examples.store; OrefreshList; OgetChildren None;
          Oinitialize rm [7] Examples.store ]
      (constructor (Examples.hostWith None) None) in
  _disposables s = constructed ++ wiring rm [7]
  ∧ length (_disposables s) = 16
  ∧ wired s.
Proof.
  intros rm s. split; [vm_compute; reflexivity|]. split; [vm_compute; reflexivity|].
  exact (proj1 (subscriptions_pushed_once s (reachable_intro _ _ _))).
Defined.

(** X4: [dispose()] releases every subscription of [_disposables] once, in
    the order they were pushed, and nothing else: it disposes no node of the
    root set and leaves [_disposables] as it is, so a second [dispose()]
    releases every subscription a second time.  Before [initialize] it
    releases the ten subscriptions of the constructor. *)
Theorem dispose_releases_subscriptions :
  ∀ s : State,
    dispose s = (Ok tt, with_trace (trace s ++ (EvRelease <$> _disposables s)) s)
    ∧ disposed (since s (dispose s).2) = []
    ∧ children (dispose s).2 = children s
    ∧ _disposables (dispose s).2 = _disposables s
    ∧ since s (dispose (dispose s).2).2
      = (EvRelease <$> _disposables s) ++ (EvRelease <$> _disposables s).
Proof.
  intros s.
  assert (E : ∀ s, dispose s
              = (Ok tt, with_trace (trace s ++ (EvRelease <$> _disposables s)) s)).
  { intros s0. unfold dispose, bind, gets. apply forEach_emit. }
  rewrite !E. simpl. split; [done|].
  erewrite since_extend by reflexivity.
  split; [by apply disposed_fmap_other; intros d [? [=]]|].
  split; [done|]. split; [done|].
  apply since_extend. simpl. by rewrite <- app_assoc.
Qed.

(** X5: a request for the children of an element never touches the root
    set: [_children] and every array stay as they are and no node is
    disposed, whatever the state of the manager and of the remotes. *)
Theorem element_request_keeps_root_set :
  ∀ (e : TreeNode) (s : State),
    _children (getChildren (Some e) s).2 = _children s
    ∧ arrays (getChildren (Some e) s).2 = arrays s
    ∧ children (getChildren (Some e) s).2 = children s
    ∧ disposed (since s (getChildren (Some e) s).2) = []
    ∧ Forall (λ x, isBuilt x = false) (since s (getChildren (Some e) s).2).
Proof.
  intros e s.
  destruct (rebuilds_false (Some e) s eq_refl) as [Q K].
  split; [apply (quiet_children _ _ Q)|]. split; [apply (quiet_arrays _ _ Q)|].
  split; [apply (quiet_children_eq _ _ Q)|]. split; [|by apply keeps_since].
  destruct K as (t & E & _). rewrite (since_extend _ _ t E).
  pose proof (quiet_disposed _ _ Q) as D. rewrite E, disposed_app in D.
  rewrite <- (app_nil_r (disposed (trace s))) in D at 2.
  by apply app_inv_head in D.
Qed.

(** X6: the pull side never pushes: [getChildren], [cachedChildren],
    [expandPullRequest], the expand and collapse handlers and [dispose]
    never fire the change emitter, so answering the host cannot start
    another refresh. *)
Theorem requests_never_fire :
  ∀ s : State,
    (∀ element, Forall (λ e, isFire e = false) (since s (getChildren element s).2))
    ∧ (∀ element,
         Forall (λ e, isFire e = false) (since s (cachedChildren element s).2))
    ∧ (∀ pullRequest,
         Forall (λ e, isFire e = false)
           (since s (expandPullRequest pullRequest s).2))
    ∧ (∀ element isExpanded,
         since s (_updateExpandedQueries element isExpanded s).2 = [])
    ∧ Forall (λ e, isFire e = false) (since s (dispose s).2).
Proof.
  intros s.
  assert (H : ∀ {A} (c : M A), respects (keeps isFire) c →
              Forall (λ e, isFire e = false) (since s (c s).2)).
  { intros A c Hc. destruct (c s) as [r s'] eqn:E. simpl.
    apply keeps_since. exact (Hc _ _ _ E). }
  split; [|split; [|split; [|split]]].
  - intros element. apply H, silent_getChildren.
  - intros element. apply H. unfold cachedChildren. respects_go keeps_prim.
  - intros pullRequest. apply H, silent_expandPullRequest.
  - intros element isExpanded. unfold _updateExpandedQueries, since.
    destruct (kind element); simpl; by rewrite drop_all.
  - apply H. unfold dispose. respects_go keeps_prim.
Qed.



(** X8: an expand or collapse event on a category node rewrites the stored
    array and nothing else.  The array it stores has no duplicates, holds
    the node's id exactly when the event was an expand, and holds every
    other id exactly when the array read held it.  An event on a node that
    is not a category node changes nothing. *)
Theorem expansion_event_frame :
  ∀ (element : TreeNode) (isExpanded : bool) (s : State),
    (∀ type id,
       kind element = CategoryTreeNode type id →
       ∃ stored,
         _updateExpandedQueries element isExpanded s
           = (Ok tt, with_workspaceState (Some stored) s)
         ∧ NoDup stored
         ∧ (id ∈ stored ↔ isExpanded = true)
         ∧ (∀ x, x ≠ id → x ∈ stored ↔ x ∈ default [] (workspaceState s)))
    ∧ ((∀ type id, kind element ≠ CategoryTreeNode type id) →
       _updateExpandedQueries element isExpanded s = (Ok tt, s)).
Proof.
  intros element isExpanded s. split.
  - intros type id K. rewrite (updateExpandedQueries_run _ _ _ _ _ K).
    eexists. split; [reflexivity|]. destruct isExpanded.
    + split; [apply Set_add_NoDup, Set_new_NoDup|]. split.
      * split; [done|]. intros _. apply Set_add_elem. by left.
      * intros x Hx. rewrite Set_add_elem, Set_new_elem. tauto.
    + split; [apply Set_delete_NoDup, Set_new_NoDup|]. split.
      * split; [|done]. by intros ?%Set_delete_gone.
      * intros x Hx. rewrite Set_delete_elem, Set_new_elem. tauto.
  - intros K. unfold _updateExpandedQueries.
    destruct (kind element) eqn:E; try done. by destruct (K type id).
Qed.

(** Collapsing the query in the middle of three stored ids keeps the other
    two, in their order; an event on a workspace-folder node is ignored. *)
Lemma expansion_event_frame_witness :
  let s :=
    constructor (Examples.hostWith None)
      (Some ["All"; "Created By Me"; "All"; "Waiting"]%string) in
  let Q := {| ref := 2; kind := CategoryTreeNode Query "Created By Me"%string |} in
  let W := {| ref := 9; kind := WorkspaceFolderNode "file:///work/oss"%string |} in
  workspaceState (_updateExpandedQueries Q false s).2
    = Some ["All"; "Waiting"]%string
  ∧ (∃ stored,
       _updateExpandedQueries Q false s = (Ok tt, with_workspaceState (Some stored) s)
       ∧ NoDup stored)
  ∧ _updateExpandedQueries W true s = (Ok tt, s).
Proof.
  intros s Q W. split; [vm_compute; reflexivity|]. split.
  - destruct (proj1 (expansion_event_frame Q false s) Query "Created By Me"%string
                eq_refl) as (stored & H1 & H2 & _).
    by exists stored.
  - apply (expansion_event_frame W true s). intros type id. discriminate.
Defined.

(** X9: on the persisted set, collapsing a category twice is collapsing it
    once (the provider state is the same), collapsing and then expanding it
    leaves it expanded, and events on categories with different ids
    commute. *)
Theorem expansion_events_compose :
  ∀ (Q1 Q2 : TreeNode) type1 id1 type2 id2 (s : State),
    kind Q1 = CategoryTreeNode type1 id1 →
    kind Q2 = CategoryTreeNode type2 id2 →
    onDidCollapseElement Q1 (onDidCollapseElement Q1 s).2
      = onDidCollapseElement Q1 s
    ∧ persisted (onDidExpandElement Q1 (onDidCollapseElement Q1 s).2).2
      = {[id1]} ∪ persisted s
    ∧ (id1 ≠ id2 →
       persisted (onDidCollapseElement Q2 (onDidExpandElement Q1 s).2).2
       = persisted (onDidExpandElement Q1 (onDidCollapseElement Q2 s).2).2).
Proof.
  intros Q1 Q2 type1 id1 type2 id2 s K1 K2. split; [|split].
  - unfold onDidCollapseElement.
    rewrite !(updateExpandedQueries_run _ _ _ _ _ K1). simpl.
    rewrite Set_new_id by apply Set_delete_NoDup, Set_new_NoDup.
    rewrite (Set_delete_absent id1 (Set_delete id1 _)) by apply Set_delete_gone.
    by destruct s.
  - rewrite (persisted_expand _ _ _ _ K1), (persisted_collapse _ _ _ _ K1).
    apply set_eq. intros x.
    rewrite !elem_of_union, elem_of_difference, elem_of_singleton.
    destruct (decide (x = id1)); tauto.
  - intros Hne.
    rewrite (persisted_collapse _ _ _ _ K2), (persisted_expand _ _ _ _ K1).
    rewrite (persisted_expand _ _ _ _ K1), (persisted_collapse _ _ _ _ K2).
    apply set_eq. intros x.
    rewrite !elem_of_difference, !elem_of_union, elem_of_difference,
      !elem_of_singleton.
    split.
    + intros [[->|H] N]; [by left|]. by right.
    + intros [->|[H N]]; [|by split; [right|]]. split; [by left|done].
Qed.

(** Two stored ids: collapsing and re-expanding [All] keeps both, and the
    events on [All] and on the query commute. *)
Lemma expansion_events_compose_witness :
  let s := constructor (Examples.hostWith None) (Some ["Waiting"; "All"]%string) in
  let A := {| ref := 3; kind := CategoryTreeNode All "All"%string |} in
  let W := {| ref := 2; kind := CategoryTreeNode Query "Waiting"%string |} in
  workspaceState (onDidExpandElement A (onDidCollapseElement A s).2).2
    = Some ["Waiting"; "All"]%string
  ∧ onDidCollapseElement A (onDidCollapseElement A s).2 = onDidCollapseElement A s
  ∧ persisted (onDidCollapseElement W (onDidExpandElement A s).2).2
    = persisted (onDidExpandElement A (onDidCollapseElement W s).2).2.
Proof.
  intros s A W. split; [vm_compute; reflexivity|].
  destruct (expansion_events_compose A W All "All"%string Query "Waiting"%string s
              eq_refl eq_refl) as (H1 & _ & H3).
  split; [exact H1|]. apply H3. discriminate.
Defined.

(** X10: what [cachedChildren()] returns after a root request.  When the
    request rebuilt the root set (a manager with folders, not initializing,
    some folder with a GitHub remote) it is the very list the request
    returned; in every other case it is the root set from before the
    request, whatever the request returned. *)
Theorem cachedChildren_after_root_request :
  ∀ s : State,
    (rebuilds None s = true ↔
     ∃ rm, _reposManager s = Some rm ∧ folderManagers rm ≠ []
           ∧ state rm ≠ Initializing
           ∧ Exists (λ m, getGitHubRemotes m ≠ []) (folderManagers rm))
    ∧ ∃ r s',
        getChildren None s = (Ok r, s')
        ∧ cachedChildren None s'
          = (Ok (if rebuilds None s then r else children s), s').
Proof.
  intros s. split; [apply rebuilds_spec|].
  destruct (rebuilds None s) eqn:R.
  - apply rebuilds_true in R as (_ & rm & _ & _ & _ & _ & E). rewrite E.
    eexists _, _. split; [reflexivity|].
    unfold cachedChildren, gets. by rewrite children_rebuilt.
  - pose proof (rebuilds_false None s R) as [Q _].
    destruct (getChildren_total None s) as [r Hr].
    destruct (getChildren None s) as [r' s'] eqn:E. simpl in *. subst r'.
    exists r, s'. split; [reflexivity|].
    unfold cachedChildren, gets. by rewrite (quiet_children_eq _ _ Q).
Qed.

(** After the remotes have disappeared the root request returns one
    placeholder and the cache still holds the three category nodes. *)
Lemma cachedChildren_after_root_request_witness :
  rebuilds None Examples.lostRemotes = false
  ∧ ∃ r s',
      getChildren None Examples.lostRemotes = (Ok r, s')
      ∧ length r = 1
      ∧ cachedChildren None s' = (Ok (children Examples.lostRemotes), s')
      ∧ length (children Examples.lostRemotes) = 3.
Proof.
  assert (R : rebuilds None Examples.lostRemotes = false)
    by (vm_compute; reflexivity).
  split; [exact R|].
  destruct (proj2 (cachedChildren_after_root_request Examples.lostRemotes))
    as (r & s' & H1 & H2).
  rewrite R in H2.
  exists r, s'. split; [exact H1|]. split; [|split; [exact H2|vm_compute; reflexivity]].
  vm_compute in H1. by injection H1 as <- _.
Defined.

(** X11: [expandPullRequest] on an empty root set that the root request
    cannot rebuild (no manager, no folder, initializing, or no GitHub
    remote) is that one root request and nothing more: no node is asked,
    the root set stays empty and the manager is untouched, so the next call
    makes the root request again. *)
Theorem expandPullRequest_without_root_set :
  ∀ (pullRequest : PullRequestModel) (s : State),
    children s = [] → rebuilds None s = false →
    ∃ r s1,
      getChildren None s = (Ok r, s1)
      ∧ expandPullRequest pullRequest s = (Ok tt, s1)
      ∧ children s1 = []
      ∧ rebuilds None s1 = false
      ∧ Forall (λ e, isAsk e = false) (since s s1).
Proof.
  intros pullRequest s C R.
  pose proof (rebuilds_false None s R) as [Q _].
  destruct (getChildren_since None s) as (t & Ht & Hin & _).
  destruct (getChildren_total None s) as [r Hr].
  destruct (getChildren None s) as [r' s1] eqn:E. simpl in *. subst r'.
  assert (C1 : children s1 = []) by by rewrite (quiet_children_eq _ _ Q).
  exists r, s1. split; [reflexivity|]. split; [|split; [done|split]].
  - rewrite expandPullRequest_run, C. simpl bool_decide. cbv iota zeta.
    rewrite E. simpl snd. by rewrite C1.
  - destruct (same_manager_getChildren None _ _ _ E) as [M _].
    unfold rebuilds in *. by rewrite M.
  - rewrite (since_extend _ _ _ Ht). constructor; [done|].
    eapply Forall_impl; [exact Hin|]. by intros e [_ ?].
Qed.

(** While the manager initializes, each call is one root request. *)
Lemma expandPullRequest_without_root_set_witness :
  let s := Examples.started Initializing [Examples.githubFolder] None in
  ∃ s1 s2,
    expandPullRequest 42 s = (Ok tt, s1)
    ∧ expandPullRequest 42 s1 = (Ok tt, s2)
    ∧ since s s2 = [EvEnter (MgetChildren None); EvEnter (MgetChildren None)].
Proof.
  intros s.
  destruct (expandPullRequest_without_root_set 42 s
              ltac:(vm_compute; reflexivity) ltac:(vm_compute; reflexivity))
    as (r & s1 & H1 & H2 & H3 & H4 & _).
  destruct (expandPullRequest_without_root_set 42 s1 H3 H4)
    as (r' & s2 & H1' & H2' & _).
  exists s1, s2. split; [exact H2|]. split; [exact H2'|].
  vm_compute in H1. injection H1 as _ <-.
  vm_compute in H1'. injection H1' as _ <-. vm_compute. reflexivity.
Defined.





(** X14: the provider sets the loading context key and never clears it: in
    no history does the key become [false], and once it is [true] it stays
    [true], also after the manager has left the state [Initializing]. *)
Theorem loading_key_never_cleared :
  (∀ s : State, reachable s → loadingContext s ≠ Some false)
  ∧ (∀ (s : State) (ops : list Op),
       loadingContext s = Some true → loadingContext (run ops s) = Some true).
Proof.
  split.
  - intros s (h & memento & ops & ->).
    by apply (loading_run ops (constructor h memento)).
  - intros s ops H. by apply (loading_run ops s).
Qed.

(** A root request while the manager initializes, then the repositories are
    loaded and the root set is built: the key is still set. *)
Lemma loading_key_never_cleared_witness :
  let s :=
    run [OgetChildren None]
      (Examples.started Initializing [Examples.githubFolder] None) in
  let ops :=
    [ Oworld (Examples.manager RepositoriesLoaded [Examples.githubFolder])
        (Examples.hostWith None);
      OgetChildren None ] in
  loadingContext s = Some true
  ∧ length (children (run ops s)) = 3
  ∧ loadingContext (run ops s) = Some true.
Proof.
  intros s ops. split; [vm_compute; reflexivity|]. split; [vm_compute; reflexivity|].
  apply (proj2 loading_key_never_cleared s ops). vm_compute. reflexivity.
Defined.

(** X15: [needsRemotes] tolerates a missing manager: it then returns the
    placeholders chosen by the remotes setting alone, never the empty list
    and never [LoginEnterprise]. *)
Theorem needsRemotes_without_manager :
  ∀ s : State,
    _reposManager s = None →
    ∃ nodes,
      (needsRemotes s).1 = Ok nodes
      ∧ kind <$> nodes
        = PRCategoryActionNode
            <$> (if remotesSetting (host s) is Some _
                 then [NoMatchingRemotes; ConfigureRemotes] else [NoRemotes])
      ∧ children (needsRemotes s).2 = children s.
Proof.
  intros s E. rewrite needsRemotes_run. cbv zeta. eexists.
  split; [reflexivity|]. split; [|reflexivity].
  rewrite freshNodes_kinds.
  unfold Gate.decision, Gate.policy, Gate.readiness, Gate.allowlist,
    Gate.enterpriseRemote. rewrite E. simpl.
  destruct (remotesSetting (host s)); reflexivity.
Qed.

(** A provider that was never initialized, with a remotes setting. *)
Lemma needsRemotes_without_manager_witness :
  ∃ nodes,
    (needsRemotes (constructor (Examples.hostWith (Some ["origin"%string])) None)).1
      = Ok nodes
    ∧ kind <$> nodes
      = [PRCategoryActionNode NoMatchingRemotes; PRCategoryActionNode ConfigureRemotes].
Proof.
  destruct (needsRemotes_without_manager
              (constructor (Examples.hostWith (Some ["origin"%string])) None) eq_refl)
    as (nodes & H1 & H2 & _).
  by exists nodes.
Defined.

(** X16: the subscriptions are fixed by the first [initialize]: whatever
    follows it, also a change of the manager's folders or a further
    [initialize], [_disposables] holds the constructor's ten subscriptions
    and then one for the manager's state, one per folder manager the manager
    had at that call, one per review model, the notification provider and
    the listener for the queries setting. *)
Theorem subscriptions_fixed_by_first_initialize :
  ∀ h memento rm reviewModels store (ops : list Op),
    let s :=
      run (Oinitialize rm reviewModels store :: ops) (constructor h memento) in
    _disposables s = constructed ++ wiring rm reviewModels
    ∧ length (_disposables s)
      = 13 + length (folderManagers rm) + length reviewModels
    ∧ notificationProvider s = Some (NewNotificationProvider store rm)
    ∧ _initialized s = true.
Proof.
  intros h memento rm rv st ops s.
  destruct (initialize_constructor h memento rm rv st) as (I & D & N).
  unfold s. rewrite run_cons. unfold step, exec.
  revert I D N. generalize (initialize rm rv st (constructor h memento)).2.
  intros s1 I D N. destruct (wiring_run ops s1 I) as [D' N'].
  rewrite D', N', D, N. repeat split.
  - unfold constructed, wiring. rewrite !length_app, !length_fmap. simpl. lia.
  - by apply initialized_run.
Qed.

(** X17: [getChildren(element)] asks the element for its children exactly
    when a manager is stored, it has a folder manager, it is not
    initializing, some folder manager has a GitHub remote and some folder
    repository has a native remote; it then returns the element's answer as
    it is.  [cachedChildren(element)] has no such guard: it always asks the
    element and returns its answer. *)
Theorem element_delegation_iff :
  ∀ (e : TreeNode) (s : State),
    (EvGetChildren e ∈ since s (getChildren (Some e) s).2
     ↔ ∃ rm, _reposManager s = Some rm ∧ folderManagers rm ≠ []
             ∧ state rm ≠ Initializing
             ∧ Exists (λ m, getGitHubRemotes m ≠ []) (folderManagers rm)
             ∧ Exists (λ m, repository_state_remotes m ≠ []) (folderManagers rm))
    ∧ (EvGetChildren e ∈ since s (getChildren (Some e) s).2 →
       (getChildren (Some e) s).1 = Ok (nodeGetChildren (host s) e))
    ∧ cachedChildren (Some e) s
      = (Ok (nodeCachedChildren (host s) e),
         with_trace (trace s ++ [EvCachedChildren e]) s).
Proof.
  intros e s. split; [|split; [|reflexivity]].
  - destruct (_reposManager s) as [rm|] eqn:E.
    2:{ rewrite getChildren_no_manager by done. simpl.
        erewrite since_extend by reflexivity.
        split; [by intros [=]%list_elem_of_singleton|]. by intros (rm & [=] & _). }
    assert (X : ∀ P : Prop,
              (P ↔ folderManagers rm ≠ [] ∧ state rm ≠ Initializing
                   ∧ noGitHubRemotes rm = false ∧ noNativeRemotes rm = false) →
              (P ↔ ∃ rm0, Some rm = Some rm0 ∧ folderManagers rm0 ≠ []
                     ∧ state rm0 ≠ Initializing
                     ∧ Exists (λ m, getGitHubRemotes m ≠ []) (folderManagers rm0)
                     ∧ Exists (λ m, repository_state_remotes m ≠ [])
                         (folderManagers rm0))).
    { intros P ->.
      assert (G : noGitHubRemotes rm = false
                  ↔ Exists (λ m, getGitHubRemotes m ≠ []) (folderManagers rm)).
      { split.
        - intros H. apply not_Forall_Exists; [apply _|].
          intros X%noGitHubRemotes_spec. congruence.
        - intros H. destruct (noGitHubRemotes rm) eqn:X; [|done].
          apply noGitHubRemotes_spec in X.
          apply Exists_exists in H as (m & Hm & Hn).
          rewrite Forall_forall in X. by specialize (X m Hm). }
      assert (N : noNativeRemotes rm = false
                  ↔ Exists (λ m, repository_state_remotes m ≠ []) (folderManagers rm)).
      { split.
        - intros H. apply not_Forall_Exists; [apply _|].
          intros X%noNativeRemotes_spec. congruence.
        - intros H. destruct (noNativeRemotes rm) eqn:X; [|done].
          apply noNativeRemotes_spec in X.
          apply Exists_exists in H as (m & Hm & Hn).
          rewrite Forall_forall in X. by specialize (X m Hm). }
      rewrite G, N. split.
      - intros (F & I & H1 & H2). by exists rm.
      - by intros (rm0 & [= <-] & F & I & H1 & H2). }
    apply X. clear X.
    assert (Y : ∀ t : list Event, EvGetChildren e ∉ t → ∀ Q : Prop, ¬ Q →
              (EvGetChildren e ∈ t ↔ Q)) by (intros; tauto).
    destruct (decide (folderManagers rm = [])) as [F|F].
    { rewrite (getChildren_no_folders _ _ rm) by done. simpl.
      erewrite since_extend by reflexivity.
      apply Y; [by intros [=]%list_elem_of_singleton|]. by intros (? & _). }
    destruct (decide (state rm = Initializing)) as [I|I].
    { rewrite (getChildren_initializing _ _ rm) by done. simpl.
      erewrite since_extend by reflexivity.
      apply Y; [by intros [=]%list_elem_of_singleton|]. by intros (_ & ? & _). }
    destruct (noGitHubRemotes rm) eqn:G.
    { rewrite (getChildren_gate_run _ _ rm) by done. cbv zeta. simpl.
      erewrite since_extend by reflexivity. apply Y; [|by intros (_ & _ & ? & _)].
      intros H. repeat (apply elem_of_cons in H as [[=]|H]).
      by apply list_elem_of_fmap in H as (? & [=] & _). }
    destruct (noNativeRemotes rm) eqn:N.
    + rewrite (getChildren_empty _ _ rm) by done. cbv zeta. simpl.
      erewrite since_extend by reflexivity.
      apply Y; [|by intros (_ & _ & _ & ?)].
      intros H. repeat (apply elem_of_cons in H as [[=]|H]). by apply elem_of_nil in H.
    + rewrite (getChildren_delegate _ _ rm) by done. simpl.
      erewrite since_extend by reflexivity. split; [done|]. intros _.
      apply elem_of_cons. right. apply elem_of_cons. by left.
  - destruct (_reposManager s) as [rm|] eqn:E.
    2:{ rewrite getChildren_no_manager by done. simpl.
        erewrite since_extend by reflexivity. by intros [=]%list_elem_of_singleton. }
    destruct (decide (folderManagers rm = [])) as [F|F].
    { rewrite (getChildren_no_folders _ _ rm) by done. simpl.
      erewrite since_extend by reflexivity. by intros [=]%list_elem_of_singleton. }
    destruct (decide (state rm = Initializing)) as [I|I].
    { rewrite (getChildren_initializing _ _ rm) by done. simpl.
      erewrite since_extend by reflexivity. by intros [=]%list_elem_of_singleton. }
    destruct (noGitHubRemotes rm) eqn:G.
    { rewrite (getChildren_gate_run _ _ rm) by done. cbv zeta. simpl.
      erewrite since_extend by reflexivity.
      intros H. repeat (apply elem_of_cons in H as [[=]|H]).
      by apply list_elem_of_fmap in H as (? & [=] & _). }
    destruct (noNativeRemotes rm) eqn:N.
    + rewrite (getChildren_empty _ _ rm) by done. cbv zeta. simpl.
      erewrite since_extend by reflexivity.
      intros H. repeat (apply elem_of_cons in H as [[=]|H]). by apply elem_of_nil in H.
    + by rewrite (getChildren_delegate _ _ rm) by done.
Qed.

(** A folder with a GitHub remote and a native remote: the element is asked.
    While the manager initializes it is not, but its cache is. *)
Lemma element_delegation_iff_witness :
  let e := {| ref := 3; kind := CategoryTreeNode All "All"%string |} in
  let s := Examples.started RepositoriesLoaded [Examples.githubFolder] None in
  let i := Examples.started Initializing [Examples.githubFolder] None in
  EvGetChildren e ∈ since s (getChildren (Some e) s).2
  ∧ since i (getChildren (Some e) i).2 = [EvEnter (MgetChildren (Some e))]
  ∧ since i (cachedChildren (Some e) i).2 = [EvCachedChildren e].
Proof.
  intros e s i. split; [|split; [vm_compute; reflexivity|]].
  - apply (proj1 (element_delegation_iff e s)).
    exists (Examples.manager RepositoriesLoaded [Examples.githubFolder]).
    split; [vm_compute; reflexivity|].
    split; [vm_compute; discriminate|]. split; [vm_compute; discriminate|].
    split; apply Exists_cons_hd; vm_compute; discriminate.
  - rewrite (proj2 (proj2 (element_delegation_iff e i))). vm_compute. reflexivity.
Defined.

